(** * Kohonen self-organising map: a shallow embedding of kohonen.py

    The classes [Neuron] and [SOM], the metrics computed on a trained map and
    the training loop of the script are embedded as Rocq functions.

    - Python exceptions are results [Raise e], [e] the name of the exception
      class.  A method that mutates [self] is a function to the new object;
      at the level of the map, where a loop can fail half way, the state
      reached when the exception is raised is kept.
    - Floating point numbers are read as real numbers ([R]).  The array
      operations and the metrics only add, subtract, multiply, divide and take
      square roots; they are written once over a [Scalar] interface, which is
      instantiated with [R] and with IEEE binary64 (Rocq's primitive floats),
      the arithmetic numpy runs.
    - The process-wide random generator of numpy is an explicit
      [RandomState]. *)

From Stdlib Require Import Reals Lra Lia ZArith.
From Stdlib Require PrimFloat Uint63.
From stdpp Require Import base list strings.

(** ** Exceptions *)

(** A Python exception, by the name of its class. *)
Definition exn := string.

Inductive result (A : Type) : Type :=
| Ok (a : A)
| Raise (e : exn).
Arguments Ok {A} a.
Arguments Raise {A} e.

#[export] Instance result_ret : MRet result := fun A a => Ok a.
#[export] Instance result_bind : MBind result := fun A B f m =>
  match m with
  | Ok a => f a
  | Raise e => Raise e
  end.

(** ** Numbers *)

(** The arithmetic the arrays are computed with. *)
Class Scalar (T : Type) := {
  of_int : Z -> T;
  fadd : T -> T -> T;
  fsub : T -> T -> T;
  fmul : T -> T -> T;
  fdiv : T -> T -> T;
  fsqrt : T -> T
}.

#[export] Instance R_scalar : Scalar R := {|
  of_int := IZR;
  fadd := Rplus;
  fsub := Rminus;
  fmul := Rmult;
  fdiv := Rdiv;
  fsqrt := sqrt
|}.

(** The integers met in the metrics are small counters: their conversion to
    binary64 goes through the 63-bit integers. *)
#[export] Instance binary64_scalar : Scalar PrimFloat.float := {|
  of_int := fun n => PrimFloat.of_uint63 (Uint63.of_Z n);
  fadd := PrimFloat.add;
  fsub := PrimFloat.sub;
  fmul := PrimFloat.mul;
  fdiv := PrimFloat.div;
  fsqrt := PrimFloat.sqrt
|}.

(** An accumulator such as [total = 0] is a Python [int] until a numpy float
    is added to it. *)
Inductive pynum (T : Type) : Type :=
| PyInt (n : Z)
| NpFloat (v : T).
Arguments PyInt {T} n.
Arguments NpFloat {T} v.

Section Arrays.
Context {T : Type} `{Scalar T}.

Definition to_float (a : pynum T) : T :=
  match a with
  | PyInt n => of_int n
  | NpFloat v => v
  end.

(** [a += v], [v] a numpy float. *)
Definition py_iadd (a : pynum T) (v : T) : pynum T :=
  NpFloat (fadd (to_float a) v).

(** [a / n] with [from __future__ import division], [n] a Python [int].
    Two Python ints divide to a float, or raise when the divisor is 0; a
    numpy float divided by 0 is not an exception (numpy warns and gives inf
    or nan, which [R] does not have: no function below reaches that case,
    the counter is 0 only while the accumulator is still the int 0). *)
Definition py_truediv (a : pynum T) (n : Z) : result (pynum T) :=
  match a with
  | PyInt m =>
      if (n =? 0)%Z then Raise "ZeroDivisionError"
      else Ok (NpFloat (fdiv (of_int m) (of_int n)))
  | NpFloat v => Ok (NpFloat (fdiv v (of_int n)))
  end.

(** [a op b] on 1-D arrays, with numpy's broadcasting: equal lengths go
    component-wise, an array of length 1 is stretched to the other one,
    anything else is a [ValueError]. *)
Definition np_broadcast (op : T -> T -> T) (a b : list T) : result (list T) :=
  if (length a =? length b)%nat then Ok (zip_with op a b)
  else match a, b with
       | [u], _ => Ok (op u <$> b)
       | _, [v] => Ok ((fun u => op u v) <$> a)
       | _, _ => Raise "ValueError"
       end.

Definition np_sub : list T -> list T -> result (list T) := np_broadcast fsub.
Definition np_add : list T -> list T -> result (list T) := np_broadcast fadd.

(** [c * a], [c] a scalar. *)
Definition np_scale (c : T) (a : list T) : list T := fmul c <$> a.

(** [target[:] = value]: the value must have the shape of the target or be
    a single element, which then fills it. *)
Definition np_assign (target value : list T) : result (list T) :=
  if (length value =? length target)%nat then Ok value
  else match value with
       | [v] => Ok ((fun _ => v) <$> target)
       | _ => Raise "ValueError"
       end.

(** [numpy.linalg.norm(a)]: the square root of the dot product of [a] with
    itself. *)
Definition np_dot_self (a : list T) : T :=
  fold_left (fun acc u => fadd acc (fmul u u)) a (of_int 0).

Definition np_norm (a : list T) : T := fsqrt (np_dot_self a).

(** [numpy.linalg.norm(a - b)**2]. *)
Definition norm_sq_diff (a b : list T) : result T :=
  d ← np_sub a b;
  mret (fmul (np_norm d) (np_norm d)).
End Arrays.

(** ** class Neuron *)

Module Neuron.
Record t : Type := mk {
  weights : list R;
  posx : Z;
  posy : Z;
  y : R
}.

(** [__init__(self, w, posx, posy)]; [w] is given flattened. *)
Definition init (w : list R) (posx posy : Z) : t := mk w posx posy 0%R.

(** [compute(self, x)]: assigns [self.y]; the method returns nothing.  An
    exception leaves the neuron as it was. *)
Definition compute (x : list R) (self : t) : result t :=
  d ← np_sub (weights self) x;
  mret (mk (weights self) (posx self) (posy self) (np_norm d)).

(** [learn(self, eta, sigma, posxjetoile, posyjetoile, x)]: the weights are
    overwritten in place, so every alias of the array sees the new values.
    [sigma = 0] is outside the model (numpy computes with inf or nan). *)
Definition learn (eta sigma : R) (posxjetoile posyjetoile : Z) (x : list R)
    (self : t) : result t :=
  let dist := ((posx self - posxjetoile) ^ 2 + (posy self - posyjetoile) ^ 2)%Z in
  let h := exp (- IZR dist / (2 * sigma * sigma))%R in
  d ← np_sub x (weights self);
  v ← np_add (weights self) (np_scale (eta * h)%R d);
  w ← np_assign (weights self) v;
  mret (mk w (posx self) (posy self) (y self)).
End Neuron.

(** ** The neuron in the arithmetic of the code *)

(** [Neuron] above computes with real numbers.  The two assignments of its
    methods use nothing but the array operations, apart from the kernel
    [h]: here they are over a [Scalar], so that they can be run in
    binary64. *)
Section NeuronArithmetic.
Context {T : Type} `{Scalar T}.

(** The value [Neuron.compute] assigns to [self.y]:
    [numpy.linalg.norm(self.weights - x.flatten())]. *)
Definition neuron_activity (weights x : list T) : result T :=
  d ← np_sub weights x;
  mret (np_norm d).

(** The weights [Neuron.learn] assigns, [gain] being the product [eta * h]:
    [self.weights[:] = self.weights[:] + eta * h * (x.flatten() - self.weights)]. *)
Definition neuron_update (gain : T) (x weights : list T) : result (list T) :=
  d ← np_sub x weights;
  v ← np_add weights (np_scale gain d);
  np_assign weights v.
End NeuronArithmetic.

(** ** 2-D arrays *)

(** [range(n)]. *)
Definition range (n : nat) : list nat := seq 0 n.

(** A grid is a list of rows. *)
Definition lookup2 {A : Type} (i j : nat) (g : list (list A)) : option A :=
  row ← g !! i; row !! j.

Definition insert2 {A : Type} (i j : nat) (a : A) (g : list (list A)) :
    list (list A) :=
  alter (fun row => <[j := a]> row) i g.

(** [g[i][j]], an [IndexError] out of range (the indices of the loops are
    never negative). *)
Definition getitem2 {A : Type} (g : list (list A)) (i j : nat) : result A :=
  match lookup2 i j g with
  | Some a => Ok a
  | None => Raise "IndexError"
  end.

(** [g[i][j] = a]. *)
Definition setitem2 {A : Type} (g : list (list A)) (i j : nat) (a : A) :
    result (list (list A)) :=
  match lookup2 i j g with
  | Some _ => Ok (insert2 i j a g)
  | None => Raise "IndexError"
  end.

(** [numpy.argmin(a)]: the index, in the flattened (row-major) array, of the
    first occurrence of the minimum; the scan keeps the best value met so far
    and moves only on a strictly smaller one. *)
Fixpoint argmin_scan (best : R) (besti i : nat) (l : list R) : nat :=
  match l with
  | [] => besti
  | v :: l' =>
      if Rlt_dec v best then argmin_scan v i (S i) l'
      else argmin_scan best besti (S i) l'
  end.

Definition np_argmin (a : list (list R)) : result nat :=
  match concat a with
  | [] => Raise "ValueError"
  | v :: l => Ok (argmin_scan v 0 1 l)
  end.

(** [numpy.min(a)]. *)
Definition np_min (a : list (list R)) : result R :=
  match concat a with
  | [] => Raise "ValueError"
  | v :: l => Ok (fold_left Rmin l v)
  end.

(** [numpy.unravel_index(index, shape)] for a 2-D shape. *)
Definition np_unravel_index (index : nat) (shape : nat * nat) : result (nat * nat) :=
  if (index <? shape.1 * shape.2)%nat
  then Ok ((index / shape.2)%nat, (index mod shape.2)%nat)
  else Raise "ValueError".

(** ** The random generator *)

(** numpy's global generator: the variates it is going to deliver, and how
    many were drawn. *)
Record RandomState : Type := mkRandomState {
  uniform : nat -> R;
  integer : nat -> nat;
  drawn : nat
}.

Definition advance (n : nat) (g : RandomState) : RandomState :=
  mkRandomState (uniform g) (integer g) (drawn g + n).

(** [numpy.random.random(shape)], flattened: one variate of [0,1) per
    element. *)
Definition random (shape : list nat) (g : RandomState) : list R * RandomState :=
  let n := foldr Nat.mul 1%nat shape in
  ((fun k => uniform g (drawn g + k)) <$> range n, advance n g).

(** [numpy.random.randint(n)]: an integer of [0, n), a [ValueError] when
    there is none. *)
Definition randint (n : nat) (g : RandomState) : result nat * RandomState :=
  if (n =? 0)%nat then (Raise "ValueError", g)
  else (Ok (integer g (drawn g) mod n)%nat, advance 1 g).

(** ** class SOM *)

Module SOM.
Record t : Type := mk {
  inputsize : list nat;
  gridsize : nat * nat;
  map : list (list Neuron.t);
  activitymap : list (list R)
}.

(** [self.weightsmap] holds the very arrays [neuron.weights] of the neurons
    of [self.map] (they are appended, not copied, and [Neuron.learn] writes
    in place): it is the weights of the neurons, read through [self.map]. *)
Definition weightsmap (self : t) : list (list (list R)) :=
  (fun mline : list Neuron.t => Neuron.weights <$> mline) <$> map self.

Definition set_map (m : list (list Neuron.t)) (self : t) : t :=
  mk (inputsize self) (gridsize self) m (activitymap self).

Definition set_activitymap (a : list (list R)) (self : t) : t :=
  mk (inputsize self) (gridsize self) (map self) a.

(** The inner loop of [__init__]: a line of neurons and the line of their
    outputs. *)
Fixpoint init_line (inputsize : list nat) (posx : nat) (posys : list nat)
    (g : RandomState) : (list Neuron.t * list R) * RandomState :=
  match posys with
  | [] => (([], []), g)
  | posy :: rest =>
      let '(w, g1) := random inputsize g in
      let neuron := Neuron.init w (Z.of_nat posx) (Z.of_nat posy) in
      let '((mline, amline), g2) := init_line inputsize posx rest g1 in
      ((neuron :: mline, Neuron.y neuron :: amline), g2)
  end.

(** The outer loop of [__init__]. *)
Fixpoint init_lines (inputsize : list nat) (posxs : list nat) (width : nat)
    (g : RandomState) : (list (list Neuron.t) * list (list R)) * RandomState :=
  match posxs with
  | [] => (([], []), g)
  | posx :: rest =>
      let '((mline, amline), g1) := init_line inputsize posx (range width) g in
      let '((m, am), g2) := init_lines inputsize rest width g1 in
      ((mline :: m, amline :: am), g2)
  end.

(** [__init__(self, inputsize, gridsize)]. *)
Definition init (inputsize : list nat) (gridsize : nat * nat) (g : RandomState) :
    t * RandomState :=
  let '((m, am), g') := init_lines inputsize (range gridsize.1) gridsize.2 g in
  (mk inputsize gridsize m am, g').

(** A method of the map: a result, or an exception, and the map as the
    method left it. *)
Definition M (A : Type) : Type := t -> result A * t.

#[global] Instance M_ret : MRet M := fun A a self => (Ok a, self).
#[global] Instance M_bind : MBind M := fun A B f m self =>
  match m self with
  | (Ok a, self') => f a self'
  | (Raise e, self') => (Raise e, self')
  end.

(** An expression that reads [self]. *)
Definition read {A : Type} (f : t -> result A) : M A := fun self => (f self, self).

Fixpoint for_each {A : Type} (l : list A) (body : A -> M unit) : M unit :=
  match l with
  | [] => mret tt
  | a :: l' => body a;; for_each l' body
  end.

Fixpoint fold_each {A S : Type} (l : list A) (body : S -> A -> M S) (s : S) : M S :=
  match l with
  | [] => mret s
  | a :: l' => s' ← body s a; fold_each l' body s'
  end.

(** [self.map[posx][posy].method(...)]: the neuron is mutated where it is. *)
Definition call_neuron (posx posy : nat) (method : Neuron.t -> result Neuron.t) :
    M unit := fun self =>
  match getitem2 (map self) posx posy with
  | Raise e => (Raise e, self)
  | Ok neuron =>
      match method neuron with
      | Raise e => (Raise e, self)
      | Ok neuron' => (Ok tt, set_map (insert2 posx posy neuron' (map self)) self)
      end
  end.

(** [self.activitymap[posx][posy] = self.map[posx][posy].y]. *)
Definition store_activity (posx posy : nat) : M unit := fun self =>
  match getitem2 (map self) posx posy with
  | Raise e => (Raise e, self)
  | Ok neuron =>
      match setitem2 (activitymap self) posx posy (Neuron.y neuron) with
      | Raise e => (Raise e, self)
      | Ok a => (Ok tt, set_activitymap a self)
      end
  end.

(** [compute(self, x)]. *)
Definition compute (x : list R) : M unit := fun self =>
  for_each (range (gridsize self).1) (fun posx =>
    for_each (range (gridsize self).2) (fun posy =>
      call_neuron posx posy (Neuron.compute x);;
      store_activity posx posy)) self.

(** The winner [learn] computes:
    [numpy.unravel_index(numpy.argmin(self.activitymap), self.gridsize)]. *)
Definition winner (self : t) : result (nat * nat) :=
  index ← np_argmin (activitymap self);
  np_unravel_index index (gridsize self).

(** [learn(self, eta, sigma, x)]. *)
Definition learn (eta sigma : R) (x : list R) : M unit := fun self =>
  match winner self with
  | Raise e => (Raise e, self)
  | Ok (jetoilex, jetoiley) =>
      for_each (range (gridsize self).1) (fun posx =>
        for_each (range (gridsize self).2) (fun posy =>
          call_neuron posx posy
            (Neuron.learn eta sigma (Z.of_nat jetoilex) (Z.of_nat jetoiley) x))) self
  end.

(** [quantification(self, X)], [X] the samples, each one flattened. *)
Definition quantification (X : list (list R)) : M (pynum R) :=
  let nsamples := length X in
  s ← fold_each X (fun s x =>
         compute x;;
         m ← read (fun self => np_min (activitymap self));
         mret (py_iadd s (m * m)%R)) (PyInt 0);
  read (fun _ => py_truediv s (Z.of_nat nsamples)).
End SOM.

(** ** The training loop of the script *)

(** The body of the loop, the display left out: a sample is drawn
    ([nsamples] is the number of samples), the map computes its activity and
    learns. *)
Definition training_step (eta sigma : R) (samples : list (list R))
    (st : RandomState * SOM.t) : result unit * (RandomState * SOM.t) :=
  let '(g, network) := st in
  match randint (length samples) g with
  | (Raise e, g1) => (Raise e, (g1, network))
  | (Ok index, g1) =>
      match samples !! index with
      | None => (Raise "IndexError", (g1, network))
      | Some x =>
          match SOM.compute x network with
          | (Raise e, network1) => (Raise e, (g1, network1))
          | (Ok _, network1) =>
              match SOM.learn eta sigma x network1 with
              | (Raise e, network2) => (Raise e, (g1, network2))
              | (Ok _, network2) => (Ok tt, (g1, network2))
              end
          end
      end
  end.

(** [for i in range(N+1)]; [steps] is what is left of [range(N+1)]. *)
Fixpoint training_loop (eta sigma : R) (samples : list (list R)) (steps : list nat)
    (st : RandomState * SOM.t) : result unit * (RandomState * SOM.t) :=
  match steps with
  | [] => (Ok tt, st)
  | _ :: rest =>
      match training_step eta sigma samples st with
      | (Raise e, st1) => (Raise e, st1)
      | (Ok _, st1) => training_loop eta sigma samples rest st1
      end
  end.

Definition training (eta sigma : R) (N : nat) (samples : list (list R))
    (g : RandomState) (network : SOM.t) : result unit * (RandomState * SOM.t) :=
  training_loop eta sigma samples (range (N + 1)) (g, network).

(** ** Metrics *)

(** A numpy array of 1-D arrays laid out on a grid: its shape and its items. *)
Record ndarray (T : Type) : Type := mk_ndarray {
  shape : list nat;
  items : list (list (list T))
}.
Arguments mk_ndarray {T} shape items.
Arguments shape {T} n.
Arguments items {T} n.

(** [numpy.array(l)], [l] a list of lists of 1-D arrays of one length: the
    array is 3-D unless a list is empty. *)
Definition np_array {T : Type} (l : list (list (list T))) : ndarray T :=
  mk_ndarray
    match l with
    | [] => [0%nat]
    | line :: _ =>
        match line with
        | [] => [length l; 0%nat]
        | a :: _ => [length l; length line; length a]
        end
    end l.

Section Metrics.
Context {T : Type} `{Scalar T}.

Fixpoint fold_result {A S : Type} (l : list A) (body : S -> A -> result S) (s : S) :
    result S :=
  match l with
  | [] => Ok s
  | a :: l' => s' ← body s a; fold_result l' body s'
  end.

(** [total += numpy.linalg.norm(a - b)**2; count += 1]. *)
Definition add_pair (acc : pynum T * Z) (a b : list T) : result (pynum T * Z) :=
  d ← norm_sq_diff a b;
  mret (py_iadd acc.1 d, (acc.2 + 1)%Z).

(** The same with [a = w[i][j]] and [b = w[k][l]]. *)
Definition add_pair_at (w : ndarray T) (acc : pynum T * Z) (i j k l : nat) :
    result (pynum T * Z) :=
  a ← getitem2 (items w) i j;
  b ← getitem2 (items w) k l;
  add_pair acc a b.

(** [distorsion_locale_moyenne], from [total = 0] on. *)
Definition distorsion_of_weights (gridsize : nat * nat) (w : ndarray T) :
    result (pynum T) :=
  acc ← fold_result (range gridsize.1) (fun acc i =>
    fold_result (range gridsize.2) (fun acc j =>
      current ← getitem2 (items w) i j;
      acc ← (if (i + 1 <? gridsize.1)%nat
             then below ← getitem2 (items w) (i + 1) j; add_pair acc current below
             else mret acc);
      if (j + 1 <? gridsize.2)%nat
      then right ← getitem2 (items w) i (j + 1); add_pair acc current right
      else mret acc) acc) (PyInt 0, 0%Z);
  py_truediv acc.1 acc.2.

(** [compute_local_roughness(weight_grid)]. *)
Definition compute_local_roughness (weight_grid : ndarray T) : result (pynum T) :=
  match shape weight_grid with
  | [height; width; dim] =>
      acc ← fold_result (range height) (fun acc i =>
        fold_result (range width) (fun acc j =>
          w_ij ← getitem2 (items weight_grid) i j;
          let neighbors := [] in
          neighbors ← (if (0 <? i)%nat
                       then n ← getitem2 (items weight_grid) (i - 1) j;
                            mret (neighbors ++ [n])
                       else mret neighbors);
          neighbors ← (if (Z.of_nat i <? Z.of_nat height - 1)%Z
                       then n ← getitem2 (items weight_grid) (i + 1) j;
                            mret (neighbors ++ [n])
                       else mret neighbors);
          neighbors ← (if (0 <? j)%nat
                       then n ← getitem2 (items weight_grid) i (j - 1);
                            mret (neighbors ++ [n])
                       else mret neighbors);
          neighbors ← (if (Z.of_nat j <? Z.of_nat width - 1)%Z
                       then n ← getitem2 (items weight_grid) i (j + 1);
                            mret (neighbors ++ [n])
                       else mret neighbors);
          fold_result neighbors (fun acc w_neighbor => add_pair acc w_ij w_neighbor) acc)
          acc) (PyInt 0, 0%Z);
      if (0 <? acc.2)%Z then py_truediv acc.1 acc.2 else mret (PyInt 0)
  | _ => Raise "ValueError"
  end.

(** [numpy.zeros((height, width))]. *)
Definition np_zeros (height width : nat) : list (list T) :=
  replicate height (replicate width (of_int 0)).

(** [carte_de_chaleur_distorsion], from [heatmap = numpy.zeros(...)] to the
    end of the loops: the values handed to the display. *)
Definition heatmap_of_weights (gridsize : nat * nat) (w : ndarray T) :
    result (list (list T)) :=
  fold_result (range gridsize.1) (fun heatmap i =>
    fold_result (range gridsize.2) (fun heatmap j =>
      let acc := (PyInt 0, 0%Z) in
      acc ← (if (0 <? i)%nat then add_pair_at w acc i j (i - 1) j else mret acc);
      acc ← (if (Z.of_nat i <? Z.of_nat gridsize.1 - 1)%Z
             then add_pair_at w acc i j (i + 1) j else mret acc);
      acc ← (if (0 <? j)%nat then add_pair_at w acc i j i (j - 1) else mret acc);
      acc ← (if (Z.of_nat j <? Z.of_nat gridsize.2 - 1)%Z
             then add_pair_at w acc i j i (j + 1) else mret acc);
      v ← (if (0 <? acc.2)%Z then py_truediv acc.1 acc.2 else mret (PyInt 0));
      setitem2 heatmap i j (to_float v)) heatmap)
    (np_zeros gridsize.1 gridsize.2).
End Metrics.

(** [distorsion_locale_moyenne(network)]. *)
Definition distorsion_locale_moyenne (network : SOM.t) : result (pynum R) :=
  distorsion_of_weights (SOM.gridsize network) (np_array (SOM.weightsmap network)).

(** [carte_de_chaleur_distorsion(network)], the display left out. *)
Definition carte_de_chaleur_distorsion (network : SOM.t) : result (list (list R)) :=
  heatmap_of_weights (SOM.gridsize network) (np_array (SOM.weightsmap network)).

(** The roughness the script prints:
    [compute_local_roughness(numpy.array(network.weightsmap))]. *)
Definition rugosite_locale_moyenne (network : SOM.t) : result (pynum R) :=
  compute_local_roughness (np_array (SOM.weightsmap network)).

(** ** Reference quantities *)

(** The sum of the squares of the components, and the Euclidean norm, as the
    specification names them. *)
Definition sum_sq (a : list R) : R := foldr (fun u s => (u * u + s)%R) 0%R a.

Definition euclidean_norm (a : list R) : R := sqrt (sum_sq a).

(** The squared grid distance of a neuron to the winner. *)
Definition d2 (n : Neuron.t) (bmu_row bmu_col : Z) : Z :=
  ((Neuron.posx n - bmu_row) ^ 2 + (Neuron.posy n - bmu_col) ^ 2)%Z.

(** The neighbourhood kernel. *)
Definition kernel (sigma : R) (d : Z) : R := exp (- IZR d / (2 * sigma ^ 2))%R.

(** The neuron after [compute] on an input of its dimension. *)
Definition activated (x : list R) (n : Neuron.t) : Neuron.t :=
  Neuron.mk (Neuron.weights n) (Neuron.posx n) (Neuron.posy n)
    (euclidean_norm (zip_with Rminus (Neuron.weights n) x)).

(** The neuron after [learn] on an input of its dimension: each weight [w_k]
    has moved to [w_k + eta * h * (x_k - w_k)]. *)
Definition learned (eta sigma : R) (bmu_row bmu_col : Z) (x : list R)
    (n : Neuron.t) : Neuron.t :=
  Neuron.mk
    (zip_with Rplus (Neuron.weights n)
       (Rmult (eta * kernel sigma (d2 n bmu_row bmu_col)) <$>
          zip_with Rminus x (Neuron.weights n)))
    (Neuron.posx n) (Neuron.posy n) (Neuron.y n).

(** ** Sums over the grid *)

(** The sum of [f] over a list, in a monoid given by its zero and its
    addition: the reals for the distances, the naturals for the counts. *)
Definition big {M A : Type} (zero : M) (plus : M -> M -> M) (f : A -> M)
    (l : list A) : M :=
  foldr (fun a s => plus (f a) s) zero l.

Definition guard {M : Type} (zero : M) (c : bool) (m : M) : M :=
  if c then m else zero.

(** The sum of a quantity [g p q] of two neighbours, over every edge of a
    grid of [h] rows and [wd] columns taken once: the edges from a position
    to its right neighbour, then the edges from a position to the one
    below. *)
Definition over_edges {M : Type} (zero : M) (plus : M -> M -> M)
    (g : nat * nat -> nat * nat -> M) (h wd : nat) : M :=
  plus
    (big zero plus (fun i =>
       big zero plus (fun j => g (i, j) (i, j + 1)%nat) (range (wd - 1))) (range h))
    (big zero plus (fun i =>
       big zero plus (fun j => g (i, j) (i + 1, j)%nat) (range wd)) (range (h - 1))).

(** The same quantity summed the way [distorsion_locale_moyenne] visits the
    grid: at every position, the neighbour below if there is one, then the
    right neighbour if there is one. *)
Definition over_below_right {M : Type} (zero : M) (plus : M -> M -> M)
    (g : nat * nat -> nat * nat -> M) (h wd : nat) : M :=
  big zero plus (fun i =>
    big zero plus (fun j =>
      plus (guard zero (i + 1 <? h)%nat (g (i, j) (i + 1, j)%nat))
           (guard zero (j + 1 <? wd)%nat (g (i, j) (i, j + 1)%nat)))
      (range wd)) (range h).

(** And the way [compute_local_roughness] and the heat map visit it: at
    every position, the neighbours above, below, on the left and on the
    right that exist. *)
Definition around {M : Type} (zero : M) (plus : M -> M -> M)
    (g : nat * nat -> nat * nat -> M) (h wd : nat) (i j : nat) : M :=
  plus (guard zero (0 <? i)%nat (g (i, j) (i - 1, j)%nat))
    (plus (guard zero (i + 1 <? h)%nat (g (i, j) (i + 1, j)%nat))
       (plus (guard zero (0 <? j)%nat (g (i, j) (i, j - 1)%nat))
          (guard zero (j + 1 <? wd)%nat (g (i, j) (i, j + 1)%nat)))).

Definition over_neighbours {M : Type} (zero : M) (plus : M -> M -> M)
    (g : nat * nat -> nat * nat -> M) (h wd : nat) : M :=
  big zero plus (fun i => big zero plus (around zero plus g h wd i) (range wd))
    (range h).

(** The squared Euclidean distance of two weight vectors. *)
Definition sq_dist (a b : list R) : R := sum_sq (zip_with Rminus a b).

(** The weight vector at a position of a grid of weights. *)
Definition cell (wm : list (list (list R))) (p : nat * nat) : list R :=
  default [] (lookup2 p.1 p.2 wm).

(** The number of edges of a grid. *)
Definition edge_count (h wd : nat) : nat := h * (wd - 1) + (h - 1) * wd.

(** The sum of the squared distances along the edges of a grid of weights. *)
Definition edge_distortion (wm : list (list (list R))) (h wd : nat) : R :=
  over_edges 0%R Rplus (fun p q => sq_dist (cell wm p) (cell wm q)) h wd.

(** ** Invariants of the map *)

(** A grid of [height] rows of [width] items. *)
Definition grid_shape {A : Type} (height width : nat) (g : list (list A)) : Prop :=
  length g = height /\ Forall (fun row => length row = width) g.

(** The number of components of an input of shape [inputsize]. *)
Definition dimension (inputsize : list nat) : nat := foldr Nat.mul 1%nat inputsize.

(** The activity map holds, at every position, the output of the neuron
    there (and has a value exactly where there is a neuron). *)
Definition in_sync (self : SOM.t) : Prop :=
  forall i j : nat,
    lookup2 i j (SOM.activitymap self) = Neuron.y <$> lookup2 i j (SOM.map self).

(** What [SOM.__init__] sets up and the methods keep: both maps have the
    size of the grid, every neuron knows its position and has as many weights
    as the input has components, and the activity map is in sync. *)
Record wf (self : SOM.t) : Prop := mk_wf {
  wf_map : grid_shape (SOM.gridsize self).1 (SOM.gridsize self).2 (SOM.map self);
  wf_activitymap :
    grid_shape (SOM.gridsize self).1 (SOM.gridsize self).2 (SOM.activitymap self);
  wf_neuron : forall (i j : nat) (n : Neuron.t),
    lookup2 i j (SOM.map self) = Some n ->
    Neuron.posx n = Z.of_nat i /\ Neuron.posy n = Z.of_nat j
    /\ length (Neuron.weights n) = dimension (SOM.inputsize self);
  wf_sync : in_sync self
}.

(** The maps a program can hold: a map as [__init__] built it, then as any
    call of [compute], [learn] or [quantification] left it, whether the call
    returned or raised. *)
Inductive reachable : SOM.t -> Prop :=
| reach_init (inputsize : list nat) (gridsize : nat * nat) (g : RandomState) :
    reachable (SOM.init inputsize gridsize g).1
| reach_compute (s : SOM.t) (x : list R) :
    reachable s -> reachable (SOM.compute x s).2
| reach_learn (s : SOM.t) (eta sigma : R) (x : list R) :
    reachable s -> reachable (SOM.learn eta sigma x s).2
| reach_quantification (s : SOM.t) (X : list (list R)) :
    reachable s -> reachable (SOM.quantification X s).2.

(** [passes eta sigma samples k st st']: from [st], [k] rounds of the
    training loop, none of which raised, lead to [st']. *)
Inductive passes (eta sigma : R) (samples : list (list R)) :
    nat -> RandomState * SOM.t -> RandomState * SOM.t -> Prop :=
| passes_0 (st : RandomState * SOM.t) : passes eta sigma samples 0 st st
| passes_S (k : nat) (st st1 st2 : RandomState * SOM.t) :
    training_step eta sigma samples st = (Ok tt, st1) ->
    passes eta sigma samples k st1 st2 ->
    passes eta sigma samples (S k) st st2.

(** The positions visited before [(i, j)] by the two nested loops. *)
Definition before (i j : nat) (p q : nat) : Prop := p < i \/ (p = i /\ q < j).

(** The state of the two nested loops over the neurons of [s0]: at the
    positions of [P] the neuron has become [f n0] and its activity
    [act n0 a0], elsewhere nothing has changed. *)
Definition cells (f : Neuron.t -> Neuron.t) (act : Neuron.t -> R -> R) (s0 : SOM.t)
    (P : nat -> nat -> Prop) (s : SOM.t) : Prop :=
  SOM.gridsize s = SOM.gridsize s0
  /\ SOM.inputsize s = SOM.inputsize s0
  /\ grid_shape (SOM.gridsize s0).1 (SOM.gridsize s0).2 (SOM.map s)
  /\ grid_shape (SOM.gridsize s0).1 (SOM.gridsize s0).2 (SOM.activitymap s)
  /\ forall (p q : nat) (n0 : Neuron.t) (a0 : R),
       lookup2 p q (SOM.map s0) = Some n0 ->
       lookup2 p q (SOM.activitymap s0) = Some a0 ->
       (P p q ->
        lookup2 p q (SOM.map s) = Some (f n0)
        /\ lookup2 p q (SOM.activitymap s) = Some (act n0 a0))
       /\ (~ P p q ->
           lookup2 p q (SOM.map s) = Some n0
           /\ lookup2 p q (SOM.activitymap s) = Some a0).

(** A grid of weights of [h] rows and [wd] columns, every vector of [d]
    components. *)
Definition weights_shape (h wd d : nat) (wm : list (list (list R))) : Prop :=
  grid_shape h wd wm
  /\ forall (i j : nat) (c : list R), lookup2 i j wm = Some c -> length c = d.

(** The accumulators [total] and [count] of a metric hold the sum [t] of [c]
    squared distances; [total] is still the integer 0 when nothing was
    added. *)
Definition acc_is (acc : pynum R * Z) (t : R) (c : nat) : Prop :=
  to_float acc.1 = t /\ acc.2 = Z.of_nat c /\ (c = 0%nat -> acc.1 = PyInt 0).

(** ** Maps used as examples *)

(** A generator that delivers zeros. *)
Definition zeros_generator : RandomState :=
  mkRandomState (fun _ => 0%R) (fun _ => 0%nat) 0.

(** One neuron, of weight 0. *)
Definition som_1x1 : SOM.t :=
  SOM.mk [1%nat] (1%nat, 1%nat) [[Neuron.mk [0%R] 0 0 0%R]] [[0%R]].

(** One row of two neurons, of weights 0 and 1. *)
Definition som_1x2 : SOM.t :=
  SOM.mk [1%nat] (1%nat, 2%nat)
    [[Neuron.mk [0%R] 0 0 0%R; Neuron.mk [1%R] 0 1 0%R]] [[0%R; 0%R]].

(** A row of three neurons of one weight each, in binary64: the weights 1,
    0 and [- 3 * 2^-28]. *)
Definition binary64_row : list (list (list PrimFloat.float)) :=
  [[ [of_int 1]; [of_int 0];
     [PrimFloat.opp (PrimFloat.div (of_int 3) (of_int 268435456))] ]].

(** Binary64 numbers: one half, the next number above it
    ([0.5 + 2^-53]), and the learning rate 0.05. *)
Definition binary64_half : PrimFloat.float :=
  PrimFloat.div (of_int 1) (of_int 2).

Definition binary64_above_half : PrimFloat.float :=
  PrimFloat.add binary64_half (PrimFloat.div (of_int 1) (of_int 9007199254740992)).

Definition binary64_rate : PrimFloat.float :=
  PrimFloat.div (of_int 1) (of_int 20).

(** A neuron whose weights have two components, met with an input of one. *)
Definition neuron_3_4 : Neuron.t := Neuron.mk [3%R; 4%R] 0 0 0%R.

(** ** Further reference quantities *)

(** A function applied to every item of a grid. *)
Definition grid_fmap {A B : Type} (f : A -> B) (g : list (list A)) : list (list B) :=
  (fun row : list A => f <$> row) <$> g.

(** The Euclidean distance of the weights of a neuron to an input. *)
Definition distance_to (x : list R) (n : Neuron.t) : R :=
  euclidean_norm (zip_with Rminus (Neuron.weights n) x).

(** The map after [compute] on an input of its dimension: every neuron has
    its output set to its distance to the input, and the activity map holds
    these distances. *)
Definition computed (x : list R) (s : SOM.t) : SOM.t :=
  SOM.mk (SOM.inputsize s) (SOM.gridsize s)
    (grid_fmap (activated x) (SOM.map s))
    (grid_fmap (distance_to x) (SOM.map s)).

(** The map after [learn] with the winner at [(bi, bj)]: every neuron has
    its weights moved, and the activity map is as it was. *)
Definition taught (eta sigma : R) (bi bj : nat) (x : list R) (s : SOM.t) : SOM.t :=
  SOM.mk (SOM.inputsize s) (SOM.gridsize s)
    (grid_fmap (learned eta sigma (Z.of_nat bi) (Z.of_nat bj) x) (SOM.map s))
    (SOM.activitymap s).

(** The least distance of an input to a neuron of the map, read in the
    row-major order of [numpy.min] (0 on a map with no neuron). *)
Definition nearest_distance (s : SOM.t) (x : list R) : R :=
  match concat (grid_fmap (distance_to x) (SOM.map s)) with
  | [] => 0%R
  | v :: l => fold_left Rmin l v
  end.

(** The number of neighbours of a position of a grid, and the value of the
    heat map there: the mean of the squared distances to these neighbours. *)
Definition neighbour_count (h wd i j : nat) : nat :=
  around 0%nat Nat.add (fun _ _ => 1%nat) h wd i j.

Definition heat (wm : list (list (list R))) (h wd i j : nat) : R :=
  if (neighbour_count h wd i j =? 0)%nat then 0%R
  else (around 0%R Rplus (fun p q => sq_dist (cell wm p) (cell wm q)) h wd i j
        / INR (neighbour_count h wd i j))%R.

(** A map whose neighbours, along the rows and along the columns, have the
    same weights. *)
Definition flat (s : SOM.t) : Prop :=
  forall (i j : nat) (n n' : Neuron.t),
    lookup2 i j (SOM.map s) = Some n ->
    lookup2 (i + 1) j (SOM.map s) = Some n'
    \/ lookup2 i (j + 1) (SOM.map s) = Some n' ->
    Neuron.weights n = Neuron.weights n'.

(** * Properties *)

(** Reduces the binds of [result] on a known outcome, and nothing else. *)
Ltac result_simpl := cbn [mbind mret result_bind result_ret].

Section NeuronFacts.
Local Open Scope R_scope.

Lemma np_broadcast_same (op : R -> R -> R) (a b : list R) :
  length a = length b -> np_broadcast op a b = Ok (zip_with op a b).
Proof.
  intros E. unfold np_broadcast. rewrite E, Nat.eqb_refl. reflexivity.
Qed.

Lemma np_broadcast_mismatch (op : R -> R -> R) (a b : list R) :
  length a <> length b -> length a <> 1%nat -> length b <> 1%nat ->
  np_broadcast op a b = Raise "ValueError".
Proof.
  intros Hab Ha Hb. unfold np_broadcast.
  apply Nat.eqb_neq in Hab. rewrite Hab.
  destruct a as [|u [|u' a]]; destruct b as [|v [|v' b]]; simpl in *;
    congruence.
Qed.

Lemma np_broadcast_right_one (op : R -> R -> R) (a : list R) (v : R) :
  np_broadcast op a [v] = Ok ((fun u => op u v) <$> a).
Proof.
  unfold np_broadcast. destruct a as [|u [|u' a]]; reflexivity.
Qed.

Lemma np_broadcast_left_one (op : R -> R -> R) (u : R) (b : list R) :
  np_broadcast op [u] b = Ok (op u <$> b).
Proof.
  unfold np_broadcast. destruct b as [|v [|v' b]]; reflexivity.
Qed.

Lemma np_assign_same (target value : list R) :
  length value = length target -> np_assign target value = Ok value.
Proof.
  intros E. unfold np_assign. rewrite E, Nat.eqb_refl. reflexivity.
Qed.

Lemma fold_dot_acc (a : list R) (acc : R) :
  fold_left (fun s u => fadd s (fmul u u)) a acc = acc + sum_sq a.
Proof.
  revert acc. induction a as [|u a IH]; intros acc; simpl.
  - lra.
  - rewrite IH. lra.
Qed.

Lemma np_dot_self_sum_sq (a : list R) : np_dot_self a = sum_sq a.
Proof. unfold np_dot_self. rewrite fold_dot_acc. simpl. lra. Qed.

Lemma np_norm_euclidean (a : list R) : np_norm a = euclidean_norm a.
Proof. unfold np_norm, euclidean_norm. simpl. now rewrite np_dot_self_sum_sq. Qed.

Lemma sum_sq_nonneg (a : list R) : 0 <= sum_sq a.
Proof. induction a as [|u a IH]; simpl; [lra | nra]. Qed.

Lemma euclidean_norm_nonneg (a : list R) : 0 <= euclidean_norm a.
Proof. apply sqrt_pos. Qed.

Lemma euclidean_norm_sq (a : list R) :
  euclidean_norm a * euclidean_norm a = sum_sq a.
Proof. apply sqrt_sqrt, sum_sq_nonneg. Qed.

Lemma kernel_eq (sigma : R) (d : Z) :
  exp (- IZR d / (2 * sigma * sigma)) = kernel sigma d.
Proof.
  unfold kernel. now replace (2 * sigma * sigma) with (2 * sigma ^ 2) by ring.
Qed.

(** What [Neuron.learn] returns on an input of the dimension of the
    weights. *)
Lemma learn_same_length (eta sigma : R) (bx bj : Z) (x : list R) (n : Neuron.t) :
  length x = length (Neuron.weights n) ->
  Neuron.learn eta sigma bx bj x n =
    Ok (Neuron.mk
          (zip_with Rplus (Neuron.weights n)
             (Rmult (eta * kernel sigma (d2 n bx bj)) <$>
                zip_with Rminus x (Neuron.weights n)))
          (Neuron.posx n) (Neuron.posy n) (Neuron.y n)).
Proof.
  intros E. unfold Neuron.learn, np_sub, np_add, np_scale.
  rewrite np_broadcast_same by exact E. simpl.
  rewrite np_broadcast_same
    by (rewrite length_fmap, length_zip_with; lia).
  simpl. rewrite np_assign_same
    by (rewrite length_zip_with, length_fmap, length_zip_with; lia).
  simpl. rewrite kernel_eq. reflexivity.
Qed.

(** What [Neuron.compute] returns on an input of the dimension of the
    weights. *)
Lemma compute_same_length (x : list R) (n : Neuron.t) :
  length x = length (Neuron.weights n) ->
  Neuron.compute x n =
    Ok (Neuron.mk (Neuron.weights n) (Neuron.posx n) (Neuron.posy n)
          (euclidean_norm (zip_with Rminus (Neuron.weights n) x))).
Proof.
  intros E. unfold Neuron.compute, np_sub.
  rewrite np_broadcast_same by auto. result_simpl.
  now rewrite np_norm_euclidean.
Qed.
End NeuronFacts.

(** ** The neuron *)

Section NeuronClaims.
Local Open Scope R_scope.

(** C1. [Neuron.learn] with [eta], [sigma], the winner at
    [(bmu_row, bmu_col)] and an input [x] of the dimension of the weights
    replaces each weight [w_k] by
    [w_k + eta * exp (- d2 / (2 * sigma^2)) * (x_k - w_k)], where
    [d2 = (posx - bmu_row)^2 + (posy - bmu_col)^2]; the position, the output
    [y] and the number of weights are unchanged.  ([sigma] is not 0: the
    kernel is then not a real number.) *)
Theorem neuron_learn_rule (eta sigma : R) (bmu_row bmu_col : Z) (x : list R)
    (n : Neuron.t) :
  sigma <> 0 ->
  length x = length (Neuron.weights n) ->
  exists n',
    Neuron.learn eta sigma bmu_row bmu_col x n = Ok n'
    /\ Neuron.posx n' = Neuron.posx n
    /\ Neuron.posy n' = Neuron.posy n
    /\ Neuron.y n' = Neuron.y n
    /\ length (Neuron.weights n') = length (Neuron.weights n)
    /\ forall (k : nat) (wk xk : R),
         Neuron.weights n !! k = Some wk -> x !! k = Some xk ->
         Neuron.weights n' !! k =
           Some (wk + eta
                      * exp (- IZR ((Neuron.posx n - bmu_row) ^ 2
                                    + (Neuron.posy n - bmu_col) ^ 2)
                             / (2 * sigma ^ 2))
                      * (xk - wk)).
Proof.
  intros _ E. eexists. split; [apply learn_same_length, E|].
  simpl. repeat split.
  - rewrite length_zip_with, length_fmap, length_zip_with. lia.
  - intros k wk xk Hw Hx.
    rewrite lookup_zip_with, Hw. simpl.
    rewrite list_lookup_fmap, lookup_zip_with, Hx. simpl. rewrite Hw. simpl.
    reflexivity.
Qed.

Lemma neuron_learn_rule_witness :
  exists n',
    Neuron.learn (1/2) 1 0 0 [0; 0] (Neuron.mk [3; 4] 0 0 0) = Ok n'
    /\ Neuron.weights n' !! 0%nat
       = Some (3 + 1/2 * exp (- IZR ((0 - 0) ^ 2 + (0 - 0) ^ 2) / (2 * 1 ^ 2))
                   * (0 - 3)).
Proof.
  destruct (neuron_learn_rule (1/2) 1 0 0 [0; 0] (Neuron.mk [3; 4] 0 0 0))
    as (n' & E & _ & _ & _ & _ & Hk); [lra | reflexivity |].
  exists n'. split; [exact E|]. apply Hk; reflexivity.
Defined.

(** C4, as the code has it.  [Neuron.compute] has no check of its own: the
    subtraction of numpy fails (a [ValueError]) when the two lengths differ
    and neither is 1; an input of length 1, or a single weight, is
    broadcast and the call succeeds.  When the lengths agree, [y] becomes
    the Euclidean norm of [weights - x] (the method returns no value), and
    the weights and the position are unchanged. *)
Theorem neuron_compute_broadcast (x : list R) (n : Neuron.t) :
  (length x <> length (Neuron.weights n) -> length x <> 1%nat ->
   length (Neuron.weights n) <> 1%nat ->
   Neuron.compute x n = Raise "ValueError")
  /\ (length x = length (Neuron.weights n) ->
      Neuron.compute x n =
        Ok (Neuron.mk (Neuron.weights n) (Neuron.posx n) (Neuron.posy n)
              (euclidean_norm (zip_with Rminus (Neuron.weights n) x))))
  /\ (forall x0 : R, x = [x0] ->
      Neuron.compute x n =
        Ok (Neuron.mk (Neuron.weights n) (Neuron.posx n) (Neuron.posy n)
              (euclidean_norm ((fun w => w - x0) <$> Neuron.weights n))))
  /\ (forall w0 : R, Neuron.weights n = [w0] ->
      Neuron.compute x n =
        Ok (Neuron.mk (Neuron.weights n) (Neuron.posx n) (Neuron.posy n)
              (euclidean_norm ((fun u => w0 - u) <$> x)))).
Proof.
  repeat split.
  - intros Hne Hx Hw. unfold Neuron.compute, np_sub.
    rewrite np_broadcast_mismatch by auto. reflexivity.
  - apply compute_same_length.
  - intros x0 ->. unfold Neuron.compute, np_sub.
    rewrite np_broadcast_right_one. result_simpl.
    now rewrite np_norm_euclidean.
  - intros w0 Hw. unfold Neuron.compute, np_sub. rewrite Hw.
    rewrite np_broadcast_left_one. result_simpl.
    now rewrite np_norm_euclidean.
Qed.

Lemma neuron_compute_broadcast_witness :
  Neuron.compute [0; 0; 0] neuron_3_4 = Raise "ValueError"
  /\ Neuron.compute [0; 0] neuron_3_4
     = Ok (Neuron.mk [3; 4] 0 0 (euclidean_norm [3 - 0; 4 - 0]))
  /\ Neuron.compute [0] neuron_3_4
     = Ok (Neuron.mk [3; 4] 0 0 (euclidean_norm [3 - 0; 4 - 0])).
Proof.
  destruct (neuron_compute_broadcast [0; 0; 0] neuron_3_4) as (H1 & _).
  destruct (neuron_compute_broadcast [0; 0] neuron_3_4) as (_ & H2 & _).
  destruct (neuron_compute_broadcast [0] neuron_3_4) as (_ & _ & H3 & _).
  split; [|split].
  - apply H1; simpl; lia.
  - apply H2. reflexivity.
  - apply (H3 0). reflexivity.
Defined.

(** C4 as stated fails: an input of length 1 given to a neuron of two
    weights is no failure, it is broadcast. *)
Lemma neuron_compute_accepts_mismatch :
  length [0] <> length (Neuron.weights neuron_3_4)
  /\ Neuron.compute [0] neuron_3_4 = Ok (Neuron.mk [3; 4] 0 0 5).
Proof.
  split; [simpl; lia|].
  unfold Neuron.compute, np_sub. rewrite np_broadcast_right_one. result_simpl.
  do 2 f_equal. rewrite np_norm_euclidean. unfold euclidean_norm. simpl.
  replace ((3 - 0) * (3 - 0) + ((4 - 0) * (4 - 0) + 0)) with (5 * 5) by lra.
  apply sqrt_square. lra.
Qed.
End NeuronClaims.

(** ** Grids *)

Section Grids.
Context {A : Type}.
Implicit Types (g : list (list A)) (a : A).

Lemma lookup2_insert2 g i j a p q :
  lookup2 p q (insert2 i j a g) =
    if decide (p = i /\ q = j) then (fun _ => a) <$> lookup2 i j g
    else lookup2 p q g.
Proof.
  unfold lookup2, insert2. rewrite list_lookup_alter.
  destruct (decide (i = p)) as [->|Hip].
  - destruct (g !! p) as [row|] eqn:Hrow; simpl.
    + rewrite list_lookup_insert.
      destruct (decide (p = p /\ q = j)) as [[_ ->]|Hn].
      * destruct (decide (j = j /\ j < length row)) as [[_ Hlt]|Hn].
        -- destruct (lookup_lt_is_Some_2 row j Hlt) as [v ->]. reflexivity.
        -- rewrite lookup_ge_None_2 by lia. reflexivity.
      * destruct (decide (j = q /\ j < length row)) as [[-> _]|_]; [tauto|].
        reflexivity.
    + destruct (decide (p = p /\ q = j)); reflexivity.
  - destruct (decide (p = i /\ q = j)) as [[-> _]|_]; [congruence|].
    reflexivity.
Qed.

Lemma lookup2_insert2_eq g i j a v :
  lookup2 i j g = Some v -> lookup2 i j (insert2 i j a g) = Some a.
Proof.
  intros E. rewrite lookup2_insert2, decide_True by auto. now rewrite E.
Qed.

Lemma lookup2_insert2_ne g i j a p q :
  (p, q) <> (i, j) -> lookup2 p q (insert2 i j a g) = lookup2 p q g.
Proof.
  intros Hne. rewrite lookup2_insert2, decide_False; [reflexivity|].
  intros [-> ->]. now apply Hne.
Qed.

Lemma grid_shape_lookup2 h w g i j :
  grid_shape h w g -> is_Some (lookup2 i j g) <-> i < h /\ j < w.
Proof.
  intros [Hh Hw]. unfold lookup2. split.
  - intros [v Hv]. destruct (g !! i) as [row|] eqn:Hrow; [|discriminate].
    simpl in Hv. split.
    + rewrite <- Hh. eapply lookup_lt_Some, Hrow.
    + rewrite <- (Forall_lookup_1 _ _ _ _ Hw Hrow). eapply lookup_lt_Some, Hv.
  - intros [Hi Hj]. rewrite <- Hh in Hi.
    destruct (lookup_lt_is_Some_2 g i Hi) as [row Hrow]. rewrite Hrow. simpl.
    apply lookup_lt_is_Some_2. now rewrite (Forall_lookup_1 _ _ _ _ Hw Hrow).
Qed.

Lemma grid_shape_insert2 h w g i j a :
  grid_shape h w g -> grid_shape h w (insert2 i j a g).
Proof.
  intros [Hh Hw]. split.
  - unfold insert2. now rewrite length_alter.
  - unfold insert2. apply Forall_alter; [exact Hw|].
    intros row _ Hrow. now rewrite length_insert.
Qed.

(** The flattened array holds row [i], column [j] at index [i * w + j]. *)
Lemma lookup_concat_grid h w g i j :
  grid_shape h w g -> j < w -> concat g !! (i * w + j) = lookup2 i j g.
Proof.
  intros [Hh Hw]. revert h i Hh. induction g as [|row g IH]; intros h i Hh Hj.
  - unfold lookup2. simpl. now rewrite !lookup_nil.
  - apply Forall_cons in Hw as [Hrow Hw]. simpl.
    destruct i as [|i].
    + unfold lookup2. simpl. apply lookup_app_l. lia.
    + rewrite lookup_app_r by (simpl; lia).
      replace (S i * w + j - length row) with (i * w + j) by (simpl; lia).
      unfold lookup2. simpl. apply (IH Hw (length g) i eq_refl Hj).
Qed.

Lemma length_concat_grid h w g : grid_shape h w g -> length (concat g) = h * w.
Proof.
  intros [Hh Hw]. revert h Hh. induction g as [|row g IH]; intros h Hh.
  - simpl in *. subst. reflexivity.
  - apply Forall_cons in Hw as [Hrow Hw]. simpl in *. subst h.
    rewrite length_app, (IH Hw (length g) eq_refl). lia.
Qed.
End Grids.

(** ** The loops of the map *)

Ltac som_simpl := unfold mbind, mret, SOM.M_bind, SOM.M_ret.

Section Loops.
Lemma for_each_seq_inv (I : nat -> SOM.t -> Prop) (body : nat -> SOM.M unit)
    (len : nat) :
  forall (start : nat) (s : SOM.t),
    (forall k s, start <= k < start + len -> I k s ->
                 exists s', body k s = (Ok tt, s') /\ I (S k) s') ->
    I start s ->
    exists s', SOM.for_each (seq start len) body s = (Ok tt, s')
               /\ I (start + len) s'.
Proof.
  induction len as [|len IH]; intros start s Hbody HI.
  - exists s. simpl. split; [reflexivity|]. now rewrite Nat.add_0_r.
  - destruct (Hbody start s) as (s1 & E1 & H1); [lia|exact HI|].
    destruct (IH (S start) s1) as (s2 & E2 & H2);
      [intros; apply Hbody; [lia|assumption] | exact H1 |].
    exists s2. split.
    + simpl. som_simpl. now rewrite E1.
    + now replace (start + S len) with (S start + len) by lia.
Qed.

(** The two nested loops, row after row: an invariant on the set of the
    positions already visited. *)
Lemma double_loop_inv (J : (nat -> nat -> Prop) -> SOM.t -> Prop)
    (B : nat -> nat -> SOM.M unit) (h w : nat) :
  (forall (P P' : nat -> nat -> Prop) s,
     (forall p q, p < h -> q < w -> (P p q <-> P' p q)) -> J P s -> J P' s) ->
  (forall i j s, i < h -> j < w -> J (before i j) s ->
                 exists s', B i j s = (Ok tt, s') /\ J (before i (S j)) s') ->
  forall s, J (fun _ _ => False) s ->
  exists s',
    SOM.for_each (range h) (fun i => SOM.for_each (range w) (fun j => B i j)) s
    = (Ok tt, s')
    /\ J (fun _ _ => True) s'.
Proof.
  intros Hext Hstep s H0.
  destruct (for_each_seq_inv (fun i s => J (before i 0) s)
              (fun i => SOM.for_each (range w) (fun j => B i j)) h 0 s)
    as (s' & E & H').
  - intros i s1 Hi H1.
    destruct (for_each_seq_inv (fun j s => J (before i j) s)
                (fun j => B i j) w 0 s1) as (s2 & E2 & H2).
    + intros j s2 Hj H2. apply Hstep; [lia|lia|exact H2].
    + exact H1.
    + exists s2. split; [exact E2|].
      eapply Hext; [|exact H2]. unfold before. intros p q Hp Hq. lia.
  - eapply Hext; [|exact H0]. unfold before. intros p q Hp Hq. lia.
  - exists s'. split; [exact E|].
    eapply Hext; [|exact H']. unfold before. intros p q Hp Hq. lia.
Qed.

(** Whatever the outcome of the loop, a property kept by every round holds
    of the map it leaves. *)
Lemma for_each_preserves {A : Type} (P : SOM.t -> Prop) (l : list A)
    (body : A -> SOM.M unit) :
  (forall a s, P s -> P (body a s).2) ->
  forall s, P s -> P (SOM.for_each l body s).2.
Proof.
  intros Hbody. induction l as [|a l IH]; intros s Hs; simpl.
  - exact Hs.
  - som_simpl. specialize (Hbody a s Hs).
    destruct (body a s) as [[[]|e] s1]; simpl in *; [now apply IH|exact Hbody].
Qed.

Lemma fold_each_preserves {A S : Type} (P : SOM.t -> Prop) (l : list A)
    (body : S -> A -> SOM.M S) :
  (forall acc a s, P s -> P (body acc a s).2) ->
  forall acc s, P s -> P (SOM.fold_each l body acc s).2.
Proof.
  intros Hbody. induction l as [|a l IH]; intros acc s Hs; simpl.
  - exact Hs.
  - som_simpl. specialize (Hbody acc a s Hs).
    destruct (body acc a s) as [[acc'|e] s1]; simpl in *;
      [now apply IH|exact Hbody].
Qed.
End Loops.

Section CellLoops.
Variables (f : Neuron.t -> Neuron.t) (act : Neuron.t -> R -> R) (s0 : SOM.t).
Hypothesis Hwf : wf s0.

Let h := (SOM.gridsize s0).1.
Let w := (SOM.gridsize s0).2.

Lemma wf_lookup_map (i j : nat) :
  i < h -> j < w -> exists n0, lookup2 i j (SOM.map s0) = Some n0.
Proof.
  intros Hi Hj. apply (grid_shape_lookup2 h w); [apply Hwf|auto].
Qed.

Lemma wf_lookup_activitymap (i j : nat) :
  i < h -> j < w -> exists a0, lookup2 i j (SOM.activitymap s0) = Some a0.
Proof.
  intros Hi Hj. apply (grid_shape_lookup2 h w); [apply Hwf|auto].
Qed.

Lemma cells_start : cells f act s0 (fun _ _ => False) s0.
Proof.
  split; [reflexivity|]. split; [reflexivity|]. split; [apply Hwf|].
  split; [apply Hwf|]. intros p q n0 a0 Hn0 Ha0. tauto.
Qed.

Lemma cells_ext (P P' : nat -> nat -> Prop) (s : SOM.t) :
  (forall p q, p < h -> q < w -> (P p q <-> P' p q)) ->
  cells f act s0 P s -> cells f act s0 P' s.
Proof.
  intros Hext (Hg & Hi & Hm & Ha & Hc).
  split; [exact Hg|]. split; [exact Hi|]. split; [exact Hm|].
  split; [exact Ha|].
  intros p q n0 a0 Hn0 Ha0.
  assert (p < h /\ q < w) as [Hp Hq].
  { apply (grid_shape_lookup2 h w (SOM.map s0) p q); [apply Hwf|eauto]. }
  destruct (Hc p q n0 a0 Hn0 Ha0) as [Hdone Hsame].
  specialize (Hext p q Hp Hq). split.
  - intros HP'. apply Hdone. tauto.
  - intros HP'. apply Hsame. tauto.
Qed.

(** One more position visited. *)
Lemma cells_advance (i j : nat) (n0 : Neuron.t) (a0 : R) (s s' : SOM.t) :
  cells f act s0 (before i j) s ->
  lookup2 i j (SOM.map s0) = Some n0 ->
  lookup2 i j (SOM.activitymap s0) = Some a0 ->
  SOM.gridsize s' = SOM.gridsize s ->
  SOM.inputsize s' = SOM.inputsize s ->
  grid_shape h w (SOM.map s') ->
  grid_shape h w (SOM.activitymap s') ->
  (forall p q, lookup2 p q (SOM.map s') =
               if decide (p = i /\ q = j) then Some (f n0)
               else lookup2 p q (SOM.map s)) ->
  (forall p q, lookup2 p q (SOM.activitymap s') =
               if decide (p = i /\ q = j) then Some (act n0 a0)
               else lookup2 p q (SOM.activitymap s)) ->
  cells f act s0 (before i (S j)) s'.
Proof.
  intros (Hg & Hi & _ & _ & Hc) Hn0 Ha0 Hg' Hi' Hm' Hact' Hmap Hactm.
  split; [congruence|]. split; [congruence|]. split; [exact Hm'|].
  split; [exact Hact'|].
  intros p q n1 a1 Hn1 Ha1. rewrite Hmap, Hactm.
  destruct (decide (p = i /\ q = j)) as [[-> ->]|Hne].
  - assert (n1 = n0) as -> by congruence. assert (a1 = a0) as -> by congruence.
    split; [auto|]. intros Hnb. exfalso. apply Hnb. unfold before. lia.
  - destruct (Hc p q n1 a1 Hn1 Ha1) as [Hdone Hsame]. split.
    + intros Hb. apply Hdone. unfold before in *. lia.
    + intros Hnb. apply Hsame. unfold before in *. lia.
Qed.

(** The call of a method on the neuron of a position not visited yet. *)
Lemma call_neuron_cells (method : Neuron.t -> result Neuron.t) (i j : nat) (s : SOM.t) :
  (forall p q n0, lookup2 p q (SOM.map s0) = Some n0 -> method n0 = Ok (f n0)) ->
  i < h -> j < w ->
  cells f act s0 (before i j) s ->
  exists n0 a0,
    lookup2 i j (SOM.map s0) = Some n0
    /\ lookup2 i j (SOM.activitymap s0) = Some a0
    /\ lookup2 i j (SOM.map s) = Some n0
    /\ lookup2 i j (SOM.activitymap s) = Some a0
    /\ SOM.call_neuron i j method s
       = (Ok tt, SOM.set_map (insert2 i j (f n0) (SOM.map s)) s).
Proof.
  intros Hm Hi Hj Hcells.
  destruct (wf_lookup_map i j Hi Hj) as [n0 Hn0].
  destruct (wf_lookup_activitymap i j Hi Hj) as [a0 Ha0].
  destruct Hcells as (_ & _ & _ & _ & Hc).
  destruct (Hc i j n0 a0 Hn0 Ha0) as [_ Hsame].
  destruct Hsame as [Hn Ha]; [unfold before; lia|].
  exists n0, a0. repeat split; auto.
  unfold SOM.call_neuron, getitem2. rewrite Hn, (Hm i j n0 Hn0). reflexivity.
Qed.
End CellLoops.

(** ** [SOM.compute] and [SOM.learn] on a well-formed map *)

Section MapMethods.
Variable s0 : SOM.t.
Hypothesis Hwf : wf s0.

Let h := (SOM.gridsize s0).1.
Let w := (SOM.gridsize s0).2.

(** A map whose every neuron went through [f] is well formed when [f]
    keeps the position and the number of weights and [act] follows the
    output. *)
Lemma cells_all_wf (f : Neuron.t -> Neuron.t) (act : Neuron.t -> R -> R)
    (s : SOM.t) :
  (forall n, Neuron.posx (f n) = Neuron.posx n
             /\ Neuron.posy (f n) = Neuron.posy n
             /\ length (Neuron.weights (f n)) = length (Neuron.weights n)) ->
  (forall n, act n (Neuron.y n) = Neuron.y (f n)) ->
  cells f act s0 (fun _ _ => True) s -> wf s.
Proof.
  intros Hf Hact (Hg & Hi & Hm & Ha & Hc).
  assert (Hcell : forall i j n, lookup2 i j (SOM.map s) = Some n ->
            exists n0, lookup2 i j (SOM.map s0) = Some n0 /\ n = f n0
                       /\ lookup2 i j (SOM.activitymap s) = Some (Neuron.y n)).
  { intros i j n Hn.
    assert (i < h /\ j < w) as [Hlt1 Hlt2]
      by (apply (grid_shape_lookup2 h w (SOM.map s) i j); eauto).
    destruct (wf_lookup_map s0 Hwf i j Hlt1 Hlt2) as [n0 Hn0].
    pose proof (wf_sync s0 Hwf i j) as Hs. rewrite Hn0 in Hs. simpl in Hs.
    destruct (Hc i j n0 _ Hn0 Hs) as [[Hn' Ha'] _]; [exact I|].
    exists n0. rewrite Hn in Hn'. injection Hn' as ->.
    rewrite Hact in Ha'. auto. }
  split.
  - rewrite Hg. exact Hm.
  - rewrite Hg. exact Ha.
  - intros i j n Hn. destruct (Hcell i j n Hn) as (n0 & Hn0 & -> & _).
    destruct (Hf n0) as (-> & -> & ->). rewrite Hi.
    apply (wf_neuron s0 Hwf i j n0 Hn0).
  - intros i j. destruct (lookup2 i j (SOM.map s)) as [n|] eqn:Hn; simpl.
    + now destruct (Hcell i j n Hn) as (n0 & _ & _ & ->).
    + destruct (lookup2 i j (SOM.activitymap s)) as [a|] eqn:Hact'; [|reflexivity].
      assert (is_Some (lookup2 i j (SOM.map s))) as [n Hn'].
      { apply (grid_shape_lookup2 h w); [exact Hm|].
        apply (grid_shape_lookup2 h w (SOM.activitymap s)); eauto. }
      congruence.
Qed.

Lemma compute_ok (x : list R) :
  length x = dimension (SOM.inputsize s0) ->
  exists s,
    SOM.compute x s0 = (Ok tt, s)
    /\ cells (activated x) (fun n _ => Neuron.y (activated x n)) s0
         (fun _ _ => True) s.
Proof.
  intros Hx. unfold SOM.compute.
  apply (double_loop_inv
           (cells (activated x) (fun n _ => Neuron.y (activated x n)) s0)).
  - intros P P' s. apply cells_ext, Hwf.
  - intros i j s Hi Hj Hcells.
    destruct (call_neuron_cells (activated x)
                (fun n _ => Neuron.y (activated x n)) s0 Hwf
                (Neuron.compute x) i j s)
      as (n0 & a0 & Hn0 & Ha0 & Hn & Ha & Ecall); auto.
    { intros p q n1 Hn1. apply compute_same_length.
      rewrite Hx. symmetry. apply (wf_neuron s0 Hwf p q n1 Hn1). }
    eexists. split.
    + som_simpl. rewrite Ecall.
      unfold SOM.store_activity, getitem2, setitem2. simpl.
      rewrite (lookup2_insert2_eq _ _ _ _ _ Hn), Ha. reflexivity.
    + apply (cells_advance _ _ s0 i j n0 a0 s); auto; simpl.
      * apply grid_shape_insert2. apply Hcells.
      * apply grid_shape_insert2. apply Hcells.
      * intros p q. rewrite lookup2_insert2, Hn.
        now destruct (decide (p = i /\ q = j)).
      * intros p q. rewrite lookup2_insert2, Ha.
        now destruct (decide (p = i /\ q = j)).
  - apply cells_start, Hwf.
Qed.

Lemma learn_ok (eta sigma : R) (x : list R) (bi bj : nat) :
  length x = dimension (SOM.inputsize s0) ->
  SOM.winner s0 = Ok (bi, bj) ->
  exists s,
    SOM.learn eta sigma x s0 = (Ok tt, s)
    /\ cells (learned eta sigma (Z.of_nat bi) (Z.of_nat bj) x) (fun _ a => a) s0
         (fun _ _ => True) s.
Proof.
  intros Hx Hwin. unfold SOM.learn. rewrite Hwin.
  apply (double_loop_inv
           (cells (learned eta sigma (Z.of_nat bi) (Z.of_nat bj) x)
              (fun _ a => a) s0)).
  - intros P P' s. apply cells_ext, Hwf.
  - intros i j s Hi Hj Hcells.
    destruct (call_neuron_cells
                (learned eta sigma (Z.of_nat bi) (Z.of_nat bj) x)
                (fun _ a => a) s0 Hwf
                (Neuron.learn eta sigma (Z.of_nat bi) (Z.of_nat bj) x) i j s)
      as (n0 & a0 & Hn0 & Ha0 & Hn & Ha & Ecall); auto.
    { intros p q n1 Hn1. apply learn_same_length.
      rewrite Hx. symmetry. apply (wf_neuron s0 Hwf p q n1 Hn1). }
    eexists. split; [exact Ecall|].
    apply (cells_advance _ _ s0 i j n0 a0 s); auto; simpl.
    + apply grid_shape_insert2. apply Hcells.
    + apply Hcells.
    + intros p q. rewrite lookup2_insert2, Hn.
      now destruct (decide (p = i /\ q = j)).
    + intros p q. destruct (decide (p = i /\ q = j)) as [[-> ->]|]; auto.
  - apply cells_start, Hwf.
Qed.

Lemma compute_wf (x : list R) (s : SOM.t) :
  cells (activated x) (fun n _ => Neuron.y (activated x n)) s0
    (fun _ _ => True) s -> wf s.
Proof.
  apply cells_all_wf; [|reflexivity]. intros n. simpl. auto.
Qed.

Lemma learn_wf (eta sigma : R) (bx bj : Z) (x : list R) (s : SOM.t) :
  length x = dimension (SOM.inputsize s0) ->
  cells (learned eta sigma bx bj x) (fun _ a => a) s0 (fun _ _ => True) s ->
  wf s.
Proof.
  intros Hx Hcells.
  assert (Hlen : forall i j n, lookup2 i j (SOM.map s0) = Some n ->
                               length (Neuron.weights n) = length x).
  { intros i j n Hn. rewrite Hx. apply (wf_neuron s0 Hwf i j n Hn). }
  destruct Hcells as (Hg & Hi & Hm & Ha & Hc).
  split.
  - rewrite Hg. exact Hm.
  - rewrite Hg. exact Ha.
  - intros i j n Hn.
    assert (i < h /\ j < w) as [Hlt1 Hlt2]
      by (apply (grid_shape_lookup2 h w (SOM.map s) i j); eauto).
    destruct (wf_lookup_map s0 Hwf i j Hlt1 Hlt2) as [n0 Hn0].
    pose proof (wf_sync s0 Hwf i j) as Hs. rewrite Hn0 in Hs. simpl in Hs.
    destruct (Hc i j n0 _ Hn0 Hs) as [[Hn' _] _]; [exact I|].
    rewrite Hn in Hn'. injection Hn' as ->. simpl.
    destruct (wf_neuron s0 Hwf i j n0 Hn0) as (Hpx & Hpy & Hd).
    rewrite Hi, length_zip_with, length_fmap, length_zip_with.
    rewrite (Hlen i j n0 Hn0) in *. repeat split; auto. lia.
  - intros i j. destruct (lookup2 i j (SOM.map s)) as [n|] eqn:Hn; simpl.
    + assert (i < h /\ j < w) as [Hlt1 Hlt2]
        by (apply (grid_shape_lookup2 h w (SOM.map s) i j); eauto).
      destruct (wf_lookup_map s0 Hwf i j Hlt1 Hlt2) as [n0 Hn0].
      pose proof (wf_sync s0 Hwf i j) as Hs. rewrite Hn0 in Hs. simpl in Hs.
      destruct (Hc i j n0 _ Hn0 Hs) as [[Hn' Ha'] _]; [exact I|].
      rewrite Hn in Hn'. injection Hn' as ->. exact Ha'.
    + destruct (lookup2 i j (SOM.activitymap s)) as [a|] eqn:Hact'; [|reflexivity].
      assert (is_Some (lookup2 i j (SOM.map s))) as [n Hn'].
      { apply (grid_shape_lookup2 h w); [exact Hm|].
        apply (grid_shape_lookup2 h w (SOM.activitymap s)); eauto. }
      congruence.
Qed.
End MapMethods.

(** ** The winner *)

Section Winner.
Local Open Scope R_scope.

(** The scan returns the first position of the least value met, the
    starting value included. *)
Lemma argmin_scan_spec (l : list R) :
  forall (best : R) (besti i : nat),
    (argmin_scan best besti i l = besti
     /\ forall k v, l !! k = Some v -> best <= v)
    \/ (exists k m,
          argmin_scan best besti i l = (i + k)%nat
          /\ l !! k = Some m /\ m < best
          /\ (forall k' v, l !! k' = Some v -> m <= v)
          /\ (forall k' v, (k' < k)%nat -> l !! k' = Some v -> m < v)).
Proof.
  induction l as [|v l IH]; intros best besti i; simpl.
  - left. split; [reflexivity|]. intros k v Hk. now rewrite lookup_nil in Hk.
  - destruct (Rlt_dec v best) as [Hlt|Hge].
    + destruct (IH v i (S i)) as [[E Hall]|(k & m & E & Hk & Hm & Hall & Hfirst)].
      * right. exists 0%nat, v. rewrite E, Nat.add_0_r.
        repeat split; auto.
        -- intros [|k'] v' Hk'; simpl in Hk'; [injection Hk' as ->; lra|eauto].
        -- intros k' v' Hk'. lia.
      * right. exists (S k), m. rewrite E.
        split; [lia|]. split; [exact Hk|]. split; [lra|]. split.
        -- intros [|k'] v' Hk'; simpl in Hk'; [injection Hk' as ->; lra|eauto].
        -- intros [|k'] v' Hlt' Hk'; simpl in Hk';
             [injection Hk' as ->; lra|]. apply (Hfirst k'); [lia|exact Hk'].
    + destruct (IH best besti (S i))
        as [[E Hall]|(k & m & E & Hk & Hm & Hall & Hfirst)].
      * left. split; [exact E|].
        intros [|k'] v' Hk'; simpl in Hk'; [injection Hk' as ->; lra|eauto].
      * right. exists (S k), m. rewrite E.
        split; [lia|]. split; [exact Hk|]. split; [lra|]. split.
        -- intros [|k'] v' Hk'; simpl in Hk'; [injection Hk' as ->; lra|eauto].
        -- intros [|k'] v' Hlt' Hk'; simpl in Hk';
             [injection Hk' as ->; lra|]. apply (Hfirst k'); [lia|exact Hk'].
Qed.

Lemma np_argmin_spec (a : list (list R)) :
  concat a <> [] ->
  exists r m,
    np_argmin a = Ok r /\ concat a !! r = Some m
    /\ forall k v, concat a !! k = Some v -> m <= v /\ ((k < r)%nat -> m < v).
Proof.
  intros Hne. unfold np_argmin. destruct (concat a) as [|v l]; [congruence|].
  destruct (argmin_scan_spec l v 0%nat 1%nat)
    as [[E Hall]|(k & m & E & Hk & Hm & Hall & Hfirst)].
  - exists 0%nat, v. rewrite E.
    split; [reflexivity|]. split; [reflexivity|].
    intros [|k] v' Hk; simpl in Hk.
    + injection Hk as ->. split; [lra|lia].
    + split; [eauto|lia].
  - exists (S k), m. rewrite E.
    split; [reflexivity|]. split; [exact Hk|].
    intros [|k'] v' Hk'; simpl in Hk'.
    + injection Hk' as ->. split; lra.
    + split; [eauto|]. intros Hlt. apply (Hfirst k'); [lia|exact Hk'].
Qed.

(** The winner of a map: a position of least activity, the first one in
    row-major order. *)
Lemma winner_spec (s : SOM.t) :
  grid_shape (SOM.gridsize s).1 (SOM.gridsize s).2 (SOM.activitymap s) ->
  (0 < (SOM.gridsize s).1)%nat -> (0 < (SOM.gridsize s).2)%nat ->
  exists (bi bj : nat) (m : R),
    SOM.winner s = Ok (bi, bj)
    /\ lookup2 bi bj (SOM.activitymap s) = Some m
    /\ forall i j v,
         lookup2 i j (SOM.activitymap s) = Some v ->
         m <= v /\ (v = m -> (bi < i)%nat \/ (bi = i /\ (bj <= j)%nat)).
Proof.
  destruct s as [isz [h w] mp am]. simpl. intros Hshape Hh Hw.
  pose proof (length_concat_grid h w am Hshape) as Hlen.
  destruct (np_argmin_spec am) as (r & m & E & Hr & Hmin).
  { intros Hnil. rewrite Hnil in Hlen. simpl in Hlen. nia. }
  assert (Hrlt : (r < h * w)%nat).
  { rewrite <- Hlen. eapply lookup_lt_Some, Hr. }
  pose proof (Nat.div_mod_eq r w) as Hdm.
  assert (Hmod : (r mod w < w)%nat) by (apply Nat.mod_upper_bound; lia).
  exists (r / w)%nat, (r mod w)%nat, m.
  split; [|split].
  - unfold SOM.winner. simpl. rewrite E. result_simpl.
    unfold np_unravel_index. simpl.
    now destruct (Nat.ltb_spec r (h * w)); [|lia].
  - rewrite <- (lookup_concat_grid h w am _ _ Hshape Hmod).
    now replace (r / w * w + r mod w)%nat with r by lia.
  - intros i j v Hv.
    assert ((i < h)%nat /\ (j < w)%nat) as [Hi Hj]
      by (apply (grid_shape_lookup2 h w am i j Hshape); eauto).
    rewrite <- (lookup_concat_grid h w am _ _ Hshape Hj) in Hv.
    destruct (Hmin _ _ Hv) as [Hle Hstrict]. split; [exact Hle|].
    intros ->.
    assert (Hge : (r <= i * w + j)%nat).
    { destruct (Nat.le_gt_cases r (i * w + j)) as [|Hlt]; [assumption|].
      specialize (Hstrict Hlt). lra. }
    destruct (Nat.lt_trichotomy (r / w) i) as [Hlt|[Heq|Hgt]].
    + left. exact Hlt.
    + right. split; [exact Heq|]. subst i. nia.
    + exfalso. nia.
Qed.
End Winner.

(** ** The examples are well formed *)

Ltac wf_example :=
  split;
  [ split; [reflexivity|repeat constructor]
  | split; [reflexivity|repeat constructor]
  | intros [|[|i]] [|[|[|j]]] n E; simpl in E; try discriminate;
    injection E as <-; simpl; repeat split; reflexivity
  | intros [|[|i]] [|[|[|j]]]; reflexivity ].

Lemma som_1x1_wf : wf som_1x1.
Proof. wf_example. Qed.

Lemma som_1x2_wf : wf som_1x2.
Proof. wf_example. Qed.

(** ** The best matching unit *)

Section WinnerClaims.
Local Open Scope R_scope.

(** C2. On a well-formed, non-empty map and an input of the dimension of
    the map, [compute] succeeds; the winner that [learn] then computes is a
    position [(bi, bj)] whose cached activity is the least of the whole
    activity map, and every position with that same least activity comes
    at or after [(bi, bj)] in row-major order (a greater row, or the same
    row and a column at least as great).  [learn] updates every neuron with
    the kernel centred on that position. *)
Theorem learn_selects_first_minimum (s0 : SOM.t) (x : list R) :
  wf s0 ->
  (0 < (SOM.gridsize s0).1)%nat -> (0 < (SOM.gridsize s0).2)%nat ->
  length x = dimension (SOM.inputsize s0) ->
  exists (s : SOM.t) (bi bj : nat) (m : R),
    SOM.compute x s0 = (Ok tt, s)
    /\ SOM.winner s = Ok (bi, bj)
    /\ lookup2 bi bj (SOM.activitymap s) = Some m
    /\ (forall i j v,
          lookup2 i j (SOM.activitymap s) = Some v ->
          m <= v /\ (v = m -> (bi < i)%nat \/ (bi = i /\ (bj <= j)%nat)))
    /\ forall eta sigma : R,
         exists s',
           SOM.learn eta sigma x s = (Ok tt, s')
           /\ forall i j n,
                lookup2 i j (SOM.map s) = Some n ->
                lookup2 i j (SOM.map s') =
                  Some (learned eta sigma (Z.of_nat bi) (Z.of_nat bj) x n).
Proof.
  intros Hwf Hh Hw Hx.
  destruct (compute_ok s0 Hwf x Hx) as (s & Ec & Hcells).
  pose proof (compute_wf s0 Hwf x s Hcells) as Hwfs.
  assert (Hg : SOM.gridsize s = SOM.gridsize s0) by apply Hcells.
  assert (Hi : SOM.inputsize s = SOM.inputsize s0) by apply Hcells.
  destruct (winner_spec s) as (bi & bj & m & Ew & Hm & Hmin).
  { apply Hwfs. } { now rewrite Hg. } { now rewrite Hg. }
  exists s, bi, bj, m. repeat (split; [assumption|]).
  intros eta sigma.
  destruct (learn_ok s Hwfs eta sigma x bi bj) as (s' & El & Hcells');
    [now rewrite Hi|exact Ew|].
  exists s'. split; [exact El|].
  intros i j n Hn. destruct Hcells' as (_ & _ & _ & _ & Hc).
  pose proof (wf_sync s Hwfs i j) as Hs. rewrite Hn in Hs. simpl in Hs.
  now destruct (Hc i j n _ Hn Hs) as [[Hn' _] _].
Qed.

Lemma learn_selects_first_minimum_witness :
  exists (s : SOM.t) (bi bj : nat) (m : R),
    SOM.compute [0] som_1x2 = (Ok tt, s)
    /\ SOM.winner s = Ok (bi, bj)
    /\ lookup2 bi bj (SOM.activitymap s) = Some m
    /\ forall i j v,
         lookup2 i j (SOM.activitymap s) = Some v ->
         m <= v /\ (v = m -> (bi < i)%nat \/ (bi = i /\ (bj <= j)%nat)).
Proof.
  destruct (learn_selects_first_minimum som_1x2 [0] som_1x2_wf)
    as (s & bi & bj & m & H1 & H2 & H3 & H4 & _);
    [simpl; lia | simpl; lia | reflexivity |].
  exists s, bi, bj, m. auto.
Defined.
End WinnerClaims.

(** ** Learning at the winner *)

Section LearnAtWinner.
Local Open Scope R_scope.

Lemma learned_diff (e : R) (w : list R) :
  forall x : list R,
    length x = length w ->
    zip_with Rminus (zip_with Rplus w (Rmult e <$> zip_with Rminus x w)) x
    = Rmult (1 - e) <$> zip_with Rminus w x.
Proof.
  induction w as [|u w IH]; intros [|v x] Hlen; simpl in *; try discriminate.
  - reflexivity.
  - f_equal; [ring|]. apply IH. lia.
Qed.

Lemma sum_sq_scale (c : R) (l : list R) :
  sum_sq (Rmult c <$> l) = c * c * sum_sq l.
Proof.
  induction l as [|u l IH]; [simpl; ring|].
  rewrite fmap_cons. unfold sum_sq in *. cbn [foldr]. rewrite IH. ring.
Qed.

Lemma euclidean_norm_scale (c : R) (l : list R) :
  euclidean_norm (Rmult c <$> l) = Rabs c * euclidean_norm l.
Proof.
  unfold euclidean_norm. rewrite sum_sq_scale.
  rewrite sqrt_mult; [|nra|apply sum_sq_nonneg].
  f_equal. apply sqrt_Rsqr_abs.
Qed.

Lemma kernel_0 (sigma : R) : kernel sigma 0 = 1.
Proof.
  unfold kernel. replace (- 0 / (2 * sigma ^ 2)) with 0; [apply exp_0|].
  unfold Rdiv. ring.
Qed.

(** Activation, one learning step, and the winner activated again: its
    distance to the input has been multiplied by [|1 - eta|]. *)
Lemma relearn_at_winner (s0 : SOM.t) (x : list R) (eta sigma : R) :
  wf s0 ->
  (0 < (SOM.gridsize s0).1)%nat -> (0 < (SOM.gridsize s0).2)%nat ->
  length x = dimension (SOM.inputsize s0) ->
  exists (s1 s2 : SOM.t) (bi bj : nat) (n0 n1 n2 n3 : Neuron.t),
    SOM.compute x s0 = (Ok tt, s1)
    /\ SOM.winner s1 = Ok (bi, bj)
    /\ SOM.learn eta sigma x s1 = (Ok tt, s2)
    /\ lookup2 bi bj (SOM.map s0) = Some n0
    /\ lookup2 bi bj (SOM.map s1) = Some n1
    /\ lookup2 bi bj (SOM.map s2) = Some n2
    /\ Neuron.compute x n2 = Ok n3
    /\ n1 = activated x n0
    /\ lookup2 bi bj (SOM.activitymap s1) = Some (Neuron.y n1)
    /\ Neuron.y n3 = Rabs (1 - eta) * Neuron.y n1.
Proof.
  intros Hwf Hh Hw Hx.
  destruct (compute_ok s0 Hwf x Hx) as (s1 & Ec & Hcells).
  pose proof (compute_wf s0 Hwf x s1 Hcells) as Hwf1.
  assert (Hg : SOM.gridsize s1 = SOM.gridsize s0) by apply Hcells.
  assert (Hi : SOM.inputsize s1 = SOM.inputsize s0) by apply Hcells.
  destruct (winner_spec s1) as (bi & bj & m & Ew & Hm & _).
  { apply Hwf1. } { now rewrite Hg. } { now rewrite Hg. }
  destruct (learn_ok s1 Hwf1 eta sigma x bi bj) as (s2 & El & Hcells2);
    [now rewrite Hi|exact Ew|].
  assert ((bi < (SOM.gridsize s0).1)%nat /\ (bj < (SOM.gridsize s0).2)%nat)
    as [Hbi Hbj].
  { rewrite <- Hg.
    apply (grid_shape_lookup2 _ _ (SOM.activitymap s1) bi bj);
      [apply Hwf1|eauto]. }
  destruct (wf_lookup_map s0 Hwf bi bj Hbi Hbj) as [n0 Hn0].
  pose proof (wf_sync s0 Hwf bi bj) as Hs0. rewrite Hn0 in Hs0. simpl in Hs0.
  destruct Hcells as (_ & _ & _ & _ & Hc1).
  destruct (Hc1 bi bj n0 _ Hn0 Hs0) as [[Hn1 Ha1] _]; [exact I|].
  destruct Hcells2 as (_ & _ & _ & _ & Hc2).
  destruct (Hc2 bi bj _ _ Hn1 Ha1) as [[Hn2 _] _]; [exact I|].
  destruct (wf_neuron s0 Hwf bi bj n0 Hn0) as (Hpx & Hpy & Hlen).
  assert (Hlenx : length x = length (Neuron.weights n0)) by congruence.
  eexists s1, s2, bi, bj, n0, _, _, _.
  repeat (split; [eassumption || reflexivity|]).
  split.
  { apply compute_same_length. simpl.
    rewrite length_zip_with, length_fmap, length_zip_with. lia. }
  split; [reflexivity|]. split; [exact Ha1|].
  simpl. unfold d2. simpl. rewrite Hpx, Hpy.
  replace ((Z.of_nat bi - Z.of_nat bi) ^ 2 + (Z.of_nat bj - Z.of_nat bj) ^ 2)%Z
    with 0%Z by lia.
  rewrite kernel_0, Rmult_1_r, learned_diff by exact Hlenx.
  apply euclidean_norm_scale.
Qed.

(** C5, in exact arithmetic.  With the floats read as real numbers, for
    [eta] in (0, 1] and [sigma > 0], on a well-formed, non-empty map and an
    input of its dimension: after [compute] and one [learn], the winner
    activated again with the same input has [(1 - eta)] times the activity
    it had before the learning step.  That is strictly smaller whenever the
    activity before was not 0; when it was 0 (the weights of the winner are
    the input) it stays 0.  In binary64 the decrease can be lost to
    rounding even when the activity is not 0: see
    [learn_keeps_activity_in_binary64]. *)
Theorem learn_shrinks_winner_activity_over_reals (s0 : SOM.t) (x : list R)
    (eta sigma : R) :
  wf s0 ->
  (0 < (SOM.gridsize s0).1)%nat -> (0 < (SOM.gridsize s0).2)%nat ->
  length x = dimension (SOM.inputsize s0) ->
  0 < eta <= 1 -> 0 < sigma ->
  exists (s1 s2 : SOM.t) (bi bj : nat) (n0 n1 n2 n3 : Neuron.t),
    SOM.compute x s0 = (Ok tt, s1)
    /\ SOM.winner s1 = Ok (bi, bj)
    /\ SOM.learn eta sigma x s1 = (Ok tt, s2)
    /\ lookup2 bi bj (SOM.map s0) = Some n0
    /\ n1 = activated x n0
    /\ lookup2 bi bj (SOM.map s1) = Some n1
    /\ lookup2 bi bj (SOM.activitymap s1) = Some (Neuron.y n1)
    /\ lookup2 bi bj (SOM.map s2) = Some n2
    /\ Neuron.compute x n2 = Ok n3
    /\ Neuron.y n3 = (1 - eta) * Neuron.y n1
    /\ (Neuron.y n1 <> 0 -> Neuron.y n3 < Neuron.y n1)
    /\ (Neuron.y n1 = 0 -> Neuron.y n3 = 0).
Proof.
  intros Hwf Hh Hw Hx Heta Hsigma.
  destruct (relearn_at_winner s0 x eta sigma Hwf Hh Hw Hx)
    as (s1 & s2 & bi & bj & n0 & n1 & n2 & n3
        & Ec & Ew & El & Hn0 & Hn1 & Hn2 & Ec3 & En1 & Ha1 & Hy).
  rewrite Rabs_right in Hy by lra.
  assert (0 <= Neuron.y n1).
  { rewrite En1. simpl. apply euclidean_norm_nonneg. }
  exists s1, s2, bi, bj, n0, n1, n2, n3.
  repeat (split; [assumption|]). split; [|intros E; rewrite Hy, E; ring].
  intros Hne. rewrite Hy. nra.
Qed.

(** On the row of two neurons of weights 0 and 1 and the input 3, whichever
    neuron wins is at a distance that is not 0, and the learning step with
    [eta = 1/2] brings it strictly closer. *)
Lemma learn_shrinks_winner_activity_over_reals_witness :
  exists (s1 s2 : SOM.t) (bi bj : nat) (n1 n2 n3 : Neuron.t),
    SOM.compute [3] som_1x2 = (Ok tt, s1)
    /\ SOM.winner s1 = Ok (bi, bj)
    /\ SOM.learn (1/2) 1 [3] s1 = (Ok tt, s2)
    /\ lookup2 bi bj (SOM.map s1) = Some n1
    /\ lookup2 bi bj (SOM.map s2) = Some n2
    /\ Neuron.compute [3] n2 = Ok n3
    /\ Neuron.y n3 = (1 - 1/2) * Neuron.y n1
    /\ Neuron.y n3 < Neuron.y n1.
Proof.
  destruct (learn_shrinks_winner_activity_over_reals som_1x2 [3] (1/2) 1
              som_1x2_wf)
    as (s1 & s2 & bi & bj & n0 & n1 & n2 & n3
        & H1 & H2 & H3 & Hn0 & En1 & H4 & _ & H5 & H6 & H7 & Hlt & _);
    [simpl; lia | simpl; lia | reflexivity | lra | lra |].
  exists s1, s2, bi, bj, n1, n2, n3.
  repeat (split; [assumption|]). apply Hlt.
  rewrite En1. unfold activated, euclidean_norm. cbn [Neuron.y].
  apply Rgt_not_eq, sqrt_lt_R0.
  destruct bi as [|bi]; [|destruct bi; discriminate].
  destruct bj as [|[|bj]]; [| |destruct bj; discriminate];
    injection Hn0 as <-; simpl; lra.
Defined.

(** C5 as stated fails where the winner already sits on the input: on the
    map of one neuron of weight 0 and the input 0, with [eta = 1] and
    [sigma = 1], the activity of the winner is 0 before the learning step
    and 0 after it, not strictly smaller. *)
Lemma learn_keeps_zero_activity :
  exists (s1 s2 : SOM.t) (n1 n2 n3 : Neuron.t),
    SOM.compute [0] som_1x1 = (Ok tt, s1)
    /\ SOM.winner s1 = Ok (0%nat, 0%nat)
    /\ SOM.learn 1 1 [0] s1 = (Ok tt, s2)
    /\ lookup2 0 0 (SOM.map s1) = Some n1
    /\ lookup2 0 0 (SOM.activitymap s1) = Some (Neuron.y n1)
    /\ lookup2 0 0 (SOM.map s2) = Some n2
    /\ Neuron.compute [0] n2 = Ok n3
    /\ ~ (Neuron.y n3 < Neuron.y n1).
Proof.
  destruct (relearn_at_winner som_1x1 [0] 1 1 som_1x1_wf)
    as (s1 & s2 & bi & bj & n0 & n1 & n2 & n3
        & Ec & Ew & El & Hn0 & Hn1 & Hn2 & Ec3 & En1 & Ha1 & Hy);
    [simpl; lia | simpl; lia | reflexivity |].
  destruct bi as [|bi]; [|destruct bi; discriminate].
  destruct bj as [|bj]; [|destruct bj; discriminate].
  injection Hn0 as <-.
  exists s1, s2, n1, n2, n3. repeat (split; [assumption|]).
  rewrite Hy, En1. simpl. unfold euclidean_norm. simpl.
  replace ((0 - 0) * (0 - 0) + 0) with 0 by ring. rewrite sqrt_0. lra.
Qed.
End LearnAtWinner.

(** ** The learning step in binary64 *)

Section LearnInBinary64.
Local Open Scope R_scope.

(** The two assignments written over a [Scalar] are, on the real numbers,
    those of the methods of [Neuron]. *)
Lemma compute_is_neuron_activity (x : list R) (n : Neuron.t) :
  Neuron.compute x n
  = y ← neuron_activity (Neuron.weights n) x;
    mret (Neuron.mk (Neuron.weights n) (Neuron.posx n) (Neuron.posy n) y).
Proof.
  unfold Neuron.compute, neuron_activity.
  destruct (np_sub (Neuron.weights n) x); reflexivity.
Qed.

Lemma learn_is_neuron_update (eta sigma : R) (bx bj : Z) (x : list R)
    (n : Neuron.t) :
  Neuron.learn eta sigma bx bj x n
  = w ← neuron_update
          (eta * exp (- IZR ((Neuron.posx n - bx) ^ 2 + (Neuron.posy n - bj) ^ 2)
                      / (2 * sigma * sigma)))
          x (Neuron.weights n);
    mret (Neuron.mk w (Neuron.posx n) (Neuron.posy n) (Neuron.y n)).
Proof.
  unfold Neuron.learn, neuron_update.
  destruct (np_sub x (Neuron.weights n)) as [d|e]; [|reflexivity].
  result_simpl.
  destruct (np_add (Neuron.weights n) _) as [v|e]; [|reflexivity].
  result_simpl.
  destruct (np_assign (Neuron.weights n) v); reflexivity.
Qed.

(** In the arithmetic numpy computes with, the decrease of C5 can be lost
    where the activity is not 0.  At the winner the squared grid distance
    is 0 and [h = numpy.exp(-0 / (2 * sigma * sigma))] is 1, so the gain
    [eta * h] is [eta].  With [eta = 0.05], a winner of weight 0.5 and the
    input [0.5 + 2^-53], the activity of the winner is [2^-53], which is
    not 0; the step [eta * h * (x - w)] is less than half the distance from
    0.5 to the next float, the sum rounds back to 0.5 and the weight
    assigned is the weight there was: activated again, the winner has the
    activity it had. *)
Lemma learn_keeps_activity_in_binary64 :
  exists y : PrimFloat.float,
    neuron_activity [binary64_half] [binary64_above_half] = Ok y
    /\ PrimFloat.ltb (of_int 0) y = true
    /\ fmul binary64_rate (of_int 1) = binary64_rate
    /\ neuron_update (fmul binary64_rate (of_int 1))
         [binary64_above_half] [binary64_half]
       = Ok [binary64_half].
Proof.
  eexists. split; [vm_compute; reflexivity|].
  split; [vm_compute; reflexivity|].
  split; vm_compute; reflexivity.
Qed.
End LearnInBinary64.

(** ** The activity map follows the neurons *)

Section Sync.
Lemma neuron_learn_keeps_y (eta sigma : R) (bx bj : Z) (x : list R)
    (n n' : Neuron.t) :
  Neuron.learn eta sigma bx bj x n = Ok n' -> Neuron.y n' = Neuron.y n.
Proof.
  unfold Neuron.learn. intros E.
  destruct (np_sub x (Neuron.weights n)) as [d|e]; [|discriminate].
  revert E. result_simpl.
  destruct (np_add _ _) as [v|e]; [|discriminate]. result_simpl.
  destruct (np_assign _ _) as [w|e]; [|discriminate]. result_simpl.
  intros E. injection E as <-. reflexivity.
Qed.

Lemma compute_at_sync (x : list R) (i j : nat) (s : SOM.t) :
  in_sync s ->
  in_sync ((SOM.call_neuron i j (Neuron.compute x);;
            SOM.store_activity i j) s).2.
Proof.
  intros Hs. som_simpl. unfold SOM.call_neuron, getitem2.
  destruct (lookup2 i j (SOM.map s)) as [n|] eqn:Hn; [|exact Hs].
  destruct (Neuron.compute x n) as [n'|e]; [|exact Hs].
  unfold SOM.store_activity, getitem2, setitem2. simpl.
  rewrite (lookup2_insert2_eq _ _ _ _ _ Hn).
  pose proof (Hs i j) as Hij. rewrite Hn in Hij. simpl in Hij. rewrite Hij.
  unfold in_sync. simpl. intros p q. rewrite !lookup2_insert2, Hn, Hij.
  destruct (decide (p = i /\ q = j)); [reflexivity|apply Hs].
Qed.

Lemma learn_at_sync (eta sigma : R) (bx bj : Z) (x : list R) (i j : nat)
    (s : SOM.t) :
  in_sync s ->
  in_sync (SOM.call_neuron i j (Neuron.learn eta sigma bx bj x) s).2.
Proof.
  intros Hs. unfold SOM.call_neuron, getitem2.
  destruct (lookup2 i j (SOM.map s)) as [n|] eqn:Hn; [|exact Hs].
  destruct (Neuron.learn eta sigma bx bj x n) as [n'|e] eqn:El; [|exact Hs].
  unfold in_sync. simpl. intros p q. rewrite lookup2_insert2, Hn.
  destruct (decide (p = i /\ q = j)) as [[-> ->]|]; [|apply Hs].
  rewrite (Hs i j), Hn. simpl.
  now rewrite (neuron_learn_keeps_y _ _ _ _ _ _ _ El).
Qed.

Lemma compute_sync (x : list R) (s : SOM.t) :
  in_sync s -> in_sync (SOM.compute x s).2.
Proof.
  intros Hs. unfold SOM.compute.
  apply (for_each_preserves in_sync); [|exact Hs]. intros i.
  apply (for_each_preserves in_sync). intros j. apply compute_at_sync.
Qed.

Lemma learn_sync (eta sigma : R) (x : list R) (s : SOM.t) :
  in_sync s -> in_sync (SOM.learn eta sigma x s).2.
Proof.
  intros Hs. unfold SOM.learn.
  destruct (SOM.winner s) as [[bi bj]|e]; [|exact Hs].
  apply (for_each_preserves in_sync); [|exact Hs]. intros i.
  apply (for_each_preserves in_sync). intros j. apply learn_at_sync.
Qed.

Lemma quantification_round_sync (acc : pynum R) (x : list R) (s : SOM.t) :
  in_sync s ->
  in_sync ((SOM.compute x;;
            m ← SOM.read (fun self => np_min (SOM.activitymap self));
            mret (py_iadd acc (m * m)%R)) s).2.
Proof.
  intros Hs. som_simpl. pose proof (compute_sync x s Hs) as Hc.
  destruct (SOM.compute x s) as [[[]|e] s1]; simpl in *; [|exact Hc].
  unfold SOM.read. destruct (np_min _); exact Hc.
Qed.

Lemma quantification_sync (X : list (list R)) (s : SOM.t) :
  in_sync s -> in_sync (SOM.quantification X s).2.
Proof.
  intros Hs. unfold SOM.quantification. som_simpl.
  match goal with
  | |- context [SOM.fold_each X ?body ?acc s] =>
      pose proof (fold_each_preserves in_sync X body
                    quantification_round_sync acc s Hs) as Hfold
  end.
  destruct (SOM.fold_each _ _ _ s) as [[acc|e] s1]; exact Hfold.
Qed.
End Sync.

(** ** Construction *)

Section Init.
Local Open Scope R_scope.

Lemma random_length (shape : list nat) (g : RandomState) :
  length (random shape g).1 = dimension shape.
Proof.
  unfold random, dimension, range. simpl. now rewrite length_fmap, length_seq.
Qed.

Lemma init_line_spec (isz : list nat) (posx : nat) (posys : list nat) :
  forall g : RandomState,
    length (SOM.init_line isz posx posys g).1.1 = length posys
    /\ length (SOM.init_line isz posx posys g).1.2 = length posys
    /\ forall k n,
         (SOM.init_line isz posx posys g).1.1 !! k = Some n ->
         exists posy,
           posys !! k = Some posy
           /\ Neuron.posx n = Z.of_nat posx /\ Neuron.posy n = Z.of_nat posy
           /\ length (Neuron.weights n) = dimension isz
           /\ Neuron.y n = 0
           /\ (SOM.init_line isz posx posys g).1.2 !! k = Some 0.
Proof.
  induction posys as [|posy posys IH]; intros g; cbn [SOM.init_line].
  - simpl. repeat split. intros k n Hk. now rewrite lookup_nil in Hk.
  - pose proof (random_length isz g) as Hlen.
    destruct (random isz g) as [wts g1]. simpl in Hlen.
    specialize (IH g1).
    destruct (SOM.init_line isz posx posys g1) as [[mline amline] g2].
    simpl in *. destruct IH as (Hm & Ha & Hk).
    split; [lia|]. split; [lia|].
    intros [|k] n Hn; simpl in *.
    + injection Hn as <-. exists posy. simpl. repeat split. exact Hlen.
    + apply Hk, Hn.
Qed.

Lemma init_lines_spec (isz : list nat) (width : nat) (posxs : list nat) :
  forall g : RandomState,
    grid_shape (length posxs) width (SOM.init_lines isz posxs width g).1.1
    /\ grid_shape (length posxs) width (SOM.init_lines isz posxs width g).1.2
    /\ forall i j n,
         lookup2 i j (SOM.init_lines isz posxs width g).1.1 = Some n ->
         exists posx,
           posxs !! i = Some posx
           /\ Neuron.posx n = Z.of_nat posx /\ Neuron.posy n = Z.of_nat j
           /\ length (Neuron.weights n) = dimension isz
           /\ Neuron.y n = 0
           /\ lookup2 i j (SOM.init_lines isz posxs width g).1.2 = Some 0.
Proof.
  induction posxs as [|posx posxs IH]; intros g; cbn [SOM.init_lines].
  - simpl. split; [split; [reflexivity|constructor]|].
    split; [split; [reflexivity|constructor]|].
    intros i j n Hn. unfold lookup2 in Hn. now rewrite lookup_nil in Hn.
  - pose proof (init_line_spec isz posx (range width) g) as (Hm & Ha & Hk).
    destruct (SOM.init_line isz posx (range width) g) as [[mline amline] g1].
    specialize (IH g1).
    destruct (SOM.init_lines isz posxs width g1) as [[m am] g2].
    simpl in *. destruct IH as ([Hlm Hfm] & [Hla Hfa] & Hcell).
    unfold range in Hm, Ha. rewrite length_seq in Hm, Ha.
    split; [split; [simpl; lia|constructor; assumption]|].
    split; [split; [simpl; lia|constructor; assumption]|].
    intros [|i] j n Hn.
    + unfold lookup2 in *. simpl in *.
      destruct (Hk j n Hn) as (posy & Hposy & Hpx & Hpy & Hl & Hy & Hact).
      apply lookup_seq in Hposy as [-> _]. exists posx. auto 10.
    + apply (Hcell i j n Hn).
Qed.

(** [__init__] builds a well-formed map. *)
Lemma init_wf (isz : list nat) (gsz : nat * nat) (g : RandomState) :
  wf (SOM.init isz gsz g).1.
Proof.
  unfold SOM.init.
  pose proof (init_lines_spec isz gsz.2 (range gsz.1) g) as (Hm & Ha & Hcell).
  destruct (SOM.init_lines isz (range gsz.1) gsz.2 g) as [[m am] g1].
  simpl in *. unfold range in Hm, Ha. rewrite length_seq in Hm, Ha.
  split; simpl; auto.
  - intros i j n Hn.
    destruct (Hcell i j n Hn) as (posx & Hposx & Hpx & Hpy & Hl & _).
    apply lookup_seq in Hposx as [-> _]. auto.
  - unfold in_sync. simpl. intros i j.
    destruct (lookup2 i j m) as [n|] eqn:Hn; simpl.
    + destruct (Hcell i j n Hn) as (_ & _ & _ & _ & _ & -> & ->). reflexivity.
    + destruct (lookup2 i j am) as [a|] eqn:Hact; [|reflexivity].
      assert (is_Some (lookup2 i j m)) as [n Hn'].
      { apply (grid_shape_lookup2 _ _ _ _ _ Hm).
        apply (grid_shape_lookup2 _ _ _ _ _ Ha). eauto. }
      congruence.
Qed.

(** Every output, and every entry of the activity map, starts at 0. *)
Lemma init_zero (isz : list nat) (gsz : nat * nat) (g : RandomState)
    (i j : nat) (n : Neuron.t) :
  lookup2 i j (SOM.map (SOM.init isz gsz g).1) = Some n ->
  Neuron.y n = 0
  /\ lookup2 i j (SOM.activitymap (SOM.init isz gsz g).1) = Some 0.
Proof.
  unfold SOM.init.
  pose proof (init_lines_spec isz gsz.2 (range gsz.1) g) as (_ & _ & Hcell).
  destruct (SOM.init_lines isz (range gsz.1) gsz.2 g) as [[m am] g1].
  simpl in *. intros Hn.
  destruct (Hcell i j n Hn) as (_ & _ & _ & _ & _ & Hy & Hact). auto.
Qed.
End Init.

(** ** The cache invariant *)

Section SyncClaim.
Local Open Scope R_scope.

(** C8. Every map a program can hold -- after [__init__], and after any
    call of [compute], [learn] or [quantification], whether it returned or
    raised -- has [activitymap[i][j]] equal to the output [y] of the neuron
    [map[i][j]] at every position; and [__init__] sets every output and
    every entry of the activity map to 0. *)
Theorem activitymap_in_sync :
  (forall s : SOM.t, reachable s -> in_sync s)
  /\ forall (inputsize : list nat) (gridsize : nat * nat) (g : RandomState)
            (i j : nat) (n : Neuron.t),
       lookup2 i j (SOM.map (SOM.init inputsize gridsize g).1) = Some n ->
       Neuron.y n = 0
       /\ lookup2 i j (SOM.activitymap (SOM.init inputsize gridsize g).1)
          = Some 0.
Proof.
  split.
  - intros s Hs. induction Hs.
    + apply init_wf.
    + now apply compute_sync.
    + now apply learn_sync.
    + now apply quantification_sync.
  - apply init_zero.
Qed.

Lemma activitymap_in_sync_witness :
  in_sync (SOM.learn (1/2) 1 [1]
             (SOM.compute [1] (SOM.init [1%nat] (2%nat, 2%nat) zeros_generator).1).2).2.
Proof.
  apply (proj1 activitymap_in_sync).
  apply reach_learn, reach_compute, reach_init.
Defined.
End SyncClaim.

(** ** The quantization error *)

Section QuantificationClaims.
Local Open Scope R_scope.

(** C3, as the code has it.  On a data set of no sample, [quantification]
    does fail, but nothing guards the division: the loop is not entered,
    the sum is still the integer 0, the division [0 / 0] is performed and
    is what raises, a [ZeroDivisionError]; the map is unchanged. *)
Theorem quantification_empty_divides (s : SOM.t) :
  SOM.quantification [] s = (py_truediv (PyInt 0 : pynum R) 0, s)
  /\ py_truediv (PyInt 0 : pynum R) 0 = Raise "ZeroDivisionError".
Proof. split; reflexivity. Qed.

(** C3 as stated fails: the exception is the one of the division, there
    is no [EmptyDataset] error. *)
Lemma quantification_empty_not_guarded :
  (SOM.quantification [] som_1x1).1 = Raise "ZeroDivisionError"
  /\ (SOM.quantification [] som_1x1).1 <> Raise "EmptyDataset".
Proof. split; [reflexivity|]. simpl. discriminate. Qed.
End QuantificationClaims.

(** ** The training loop *)

Section Training.
Local Open Scope R_scope.

Variables (eta sigma : R) (samples : list (list R)).

(** The states the loop goes through: a well-formed, non-empty map of a
    fixed size. *)
Let good (isz : list nat) (gsz : nat * nat) (s : SOM.t) : Prop :=
  wf s /\ SOM.inputsize s = isz /\ SOM.gridsize s = gsz.

(** One round on a good state: what it draws, what it leaves. *)
Lemma training_step_ok (isz : list nat) (gsz : nat * nat) (g : RandomState)
    (s0 : SOM.t) :
  good isz gsz s0 ->
  (0 < gsz.1)%nat -> (0 < gsz.2)%nat ->
  samples <> [] ->
  Forall (fun x => length x = dimension isz) samples ->
  exists (x : list R) (s1 s2 : SOM.t) (bi bj : nat),
    samples !! (integer g (drawn g) mod length samples)%nat = Some x
    /\ SOM.compute x s0 = (Ok tt, s1)
    /\ SOM.winner s1 = Ok (bi, bj)
    /\ SOM.learn eta sigma x s1 = (Ok tt, s2)
    /\ training_step eta sigma samples (g, s0) = (Ok tt, (advance 1 g, s2))
    /\ good isz gsz s2
    /\ forall i j n,
         lookup2 i j (SOM.map s0) = Some n ->
         lookup2 i j (SOM.map s2)
         = Some (learned eta sigma (Z.of_nat bi) (Z.of_nat bj) x (activated x n)).
Proof.
  intros (Hwf & Hisz & Hgsz) Hh Hw Hne Hdim.
  assert (Hlen : (0 < length samples)%nat)
    by (destruct samples; [congruence|simpl; lia]).
  assert (Hidx : (integer g (drawn g) mod length samples < length samples)%nat)
    by (apply Nat.mod_upper_bound; lia).
  destruct (lookup_lt_is_Some_2 _ _ Hidx) as [x Hx].
  assert (Hxd : length x = dimension (SOM.inputsize s0)).
  { rewrite Hisz. apply (Forall_lookup_1 _ _ _ _ Hdim Hx). }
  destruct (compute_ok s0 Hwf x Hxd) as (s1 & Ec & Hcells).
  pose proof (compute_wf s0 Hwf x s1 Hcells) as Hwf1.
  assert (Hg1 : SOM.gridsize s1 = SOM.gridsize s0) by apply Hcells.
  assert (Hi1 : SOM.inputsize s1 = SOM.inputsize s0) by apply Hcells.
  destruct (winner_spec s1) as (bi & bj & m & Ew & _).
  { apply Hwf1. } { now rewrite Hg1, Hgsz. } { now rewrite Hg1, Hgsz. }
  destruct (learn_ok s1 Hwf1 eta sigma x bi bj) as (s2 & El & Hcells2);
    [now rewrite Hi1|exact Ew|].
  pose proof (learn_wf s1 Hwf1 eta sigma (Z.of_nat bi) (Z.of_nat bj) x s2)
    as Hwf2.
  exists x, s1, s2, bi, bj. repeat (split; [assumption|]).
  split; [|split].
  - unfold training_step, randint.
    destruct (Nat.eqb_spec (length samples) 0) as [E0|_]; [lia|].
    now rewrite Hx, Ec, El.
  - split; [apply Hwf2; [now rewrite Hi1|exact Hcells2]|].
    destruct Hcells2 as (Hg2 & Hi2 & _). split; congruence.
  - intros i j n Hn.
    pose proof (wf_sync s0 Hwf i j) as Hs0. rewrite Hn in Hs0. simpl in Hs0.
    destruct Hcells as (_ & _ & _ & _ & Hc1).
    destruct (Hc1 i j n _ Hn Hs0) as [[Hn1 Ha1] _]; [exact I|].
    destruct Hcells2 as (_ & _ & _ & _ & Hc2).
    now destruct (Hc2 i j _ _ Hn1 Ha1) as [[Hn2 _] _].
Qed.

(** The loop over a list of [k] steps makes [k] rounds. *)
Lemma training_loop_passes (isz : list nat) (gsz : nat * nat) (steps : list nat) :
  (0 < gsz.1)%nat -> (0 < gsz.2)%nat ->
  samples <> [] ->
  Forall (fun x => length x = dimension isz) samples ->
  forall (g : RandomState) (s0 : SOM.t),
    good isz gsz s0 ->
    exists (g' : RandomState) (s' : SOM.t),
      training_loop eta sigma samples steps (g, s0) = (Ok tt, (g', s'))
      /\ passes eta sigma samples (length steps) (g, s0) (g', s')
      /\ drawn g' = (drawn g + length steps)%nat
      /\ good isz gsz s'.
Proof.
  intros Hh Hw Hne Hdim.
  induction steps as [|step steps IH]; intros g s0 Hgood.
  - exists g, s0. simpl. split; [reflexivity|]. split; [constructor|].
    split; [lia|exact Hgood].
  - destruct (training_step_ok isz gsz g s0 Hgood Hh Hw Hne Hdim)
      as (x & s1 & s2 & bi & bj & _ & _ & _ & _ & Estep & Hgood2 & _).
    destruct (IH (advance 1 g) s2 Hgood2) as (g' & s' & Eloop & Hp & Hd & Hg').
    exists g', s'. cbn [training_loop length]. rewrite Estep.
    split; [exact Eloop|]. split; [econstructor; eassumption|].
    split; [simpl in Hd; lia|exact Hg'].
Qed.
End Training.

Section TrainingClaim.
Local Open Scope R_scope.




End TrainingClaim.

(** ** Sums *)

Section Sums.
Context {M : Type} (zero : M) (plus : M -> M -> M).
Hypothesis plus_assoc : forall a b c, plus a (plus b c) = plus (plus a b) c.
Hypothesis plus_comm : forall a b, plus a b = plus b a.
Hypothesis plus_zero : forall a, plus zero a = a.

Local Abbreviation sum := (big zero plus).

Lemma big_app {A : Type} (f : A -> M) (l k : list A) :
  sum f (l ++ k) = plus (sum f l) (sum f k).
Proof.
  induction l as [|a l IH]; simpl.
  - now rewrite plus_zero.
  - now rewrite IH, plus_assoc.
Qed.

Lemma big_ext {A : Type} (f g : A -> M) (l : list A) :
  (forall a, a ∈ l -> f a = g a) -> sum f l = sum g l.
Proof.
  induction l as [|a l IH]; intros Hfg; simpl; [reflexivity|].
  rewrite Hfg by left. rewrite IH; [reflexivity|].
  intros b Hb. apply Hfg. now right.
Qed.

Lemma big_fmap {A B : Type} (f : B -> M) (g : A -> B) (l : list A) :
  sum f (g <$> l) = sum (fun a => f (g a)) l.
Proof. induction l as [|a l IH]; simpl; [reflexivity|]. now rewrite <- IH. Qed.

Lemma big_plus {A : Type} (f g : A -> M) (l : list A) :
  sum (fun a => plus (f a) (g a)) l = plus (sum f l) (sum g l).
Proof.
  induction l as [|a l IH]; simpl.
  - now rewrite plus_zero.
  - rewrite IH, !plus_assoc. f_equal.
    rewrite <- !plus_assoc. f_equal. apply plus_comm.
Qed.

Lemma big_guard_const {A : Type} (c : bool) (f : A -> M) (l : list A) :
  sum (fun a => guard zero c (f a)) l = guard zero c (sum f l).
Proof.
  destruct c; simpl; [reflexivity|].
  induction l as [|a l IH]; simpl; [reflexivity|]. now rewrite IH, plus_zero.
Qed.

Lemma plus_interchange (a b c d : M) :
  plus a (plus b (plus c d)) = plus (plus a c) (plus b d).
Proof.
  now rewrite (plus_assoc b c d), (plus_comm b c), <- (plus_assoc c b d),
    plus_assoc.
Qed.

(** Every index but the last has a successor. *)
Lemma big_guard_last (f : nat -> M) (n : nat) :
  sum (fun j => guard zero (j + 1 <? n)%nat (f j)) (range n)
  = sum f (range (n - 1)).
Proof.
  destruct n as [|n]; [reflexivity|].
  unfold range. rewrite seq_S, big_app. simpl.
  replace (n - 0)%nat with n by lia.
  destruct (Nat.ltb_spec (n + 1) (S n)) as [Hlt|_]; [lia|]. simpl.
  rewrite (plus_zero zero), plus_comm, plus_zero.
  apply big_ext. intros j Hj. apply elem_of_seq in Hj.
  destruct (Nat.ltb_spec (j + 1) (S n)) as [_|Hge]; [reflexivity|lia].
Qed.

(** Every index but the first has a predecessor. *)
Lemma big_guard_first (f : nat -> M) (n : nat) :
  sum (fun i => guard zero (0 <? i)%nat (f (i - 1)%nat)) (range n)
  = sum f (range (n - 1)).
Proof.
  destruct n as [|n]; [reflexivity|].
  unfold range. simpl. replace (n - 0)%nat with n by lia.
  rewrite plus_zero, <- fmap_S_seq, big_fmap.
  apply big_ext. intros i _. simpl. now replace (i - 0)%nat with i by lia.
Qed.

Variable g : nat * nat -> nat * nat -> M.

(** The visit of [distorsion_locale_moyenne] takes every edge once. *)
Lemma over_below_right_edges (h wd : nat) :
  over_below_right zero plus g h wd = over_edges zero plus g h wd.
Proof.
  unfold over_below_right, over_edges.
  rewrite (big_ext _ (fun i =>
    plus (guard zero (i + 1 <? h)%nat
            (sum (fun j => g (i, j) (i + 1, j)%nat) (range wd)))
         (sum (fun j => g (i, j) (i, j + 1)%nat) (range (wd - 1))))).
  - rewrite big_plus, big_guard_last. apply plus_comm.
  - intros i _. now rewrite big_plus, big_guard_const, big_guard_last.
Qed.

(** The visit of the four neighbours takes every edge twice, once from each
    end. *)
Lemma over_neighbours_edges (h wd : nat) :
  (forall p q, g p q = g q p) ->
  over_neighbours zero plus g h wd
  = plus (over_edges zero plus g h wd) (over_edges zero plus g h wd).
Proof.
  intros Hsym. unfold over_neighbours, around, over_edges.
  set (right := sum (fun i =>
                 sum (fun j => g (i, j) (i, j + 1)%nat) (range (wd - 1)))
                 (range h)).
  set (below := sum (fun i =>
                 sum (fun j => g (i, j) (i + 1, j)%nat) (range wd))
                 (range (h - 1))).
  rewrite (big_ext _ (fun i =>
    plus (guard zero (0 <? i)%nat
            (sum (fun j => g (i - 1, j)%nat (i - 1 + 1, j)%nat) (range wd)))
      (plus (guard zero (i + 1 <? h)%nat
               (sum (fun j => g (i, j) (i + 1, j)%nat) (range wd)))
         (plus (sum (fun j => g (i, j) (i, j + 1)%nat) (range (wd - 1)))
               (sum (fun j => g (i, j) (i, j + 1)%nat) (range (wd - 1))))))).
  - rewrite !big_plus.
    rewrite (big_guard_first
               (fun i => sum (fun j => g (i, j) (i + 1, j)%nat) (range wd))).
    rewrite big_guard_last. fold right. fold below.
    now rewrite plus_interchange, (plus_comm below right).
  - intros i _. rewrite !big_plus, !big_guard_const, big_guard_last.
    f_equal.
    + destruct (Nat.ltb_spec 0 i) as [Hi|_]; [|reflexivity]. simpl.
      apply big_ext. intros j _.
      replace (i - 1 + 1)%nat with i by lia. apply Hsym.
    + f_equal. f_equal.
      rewrite (big_ext _ (fun j =>
        guard zero (0 <? j)%nat (g (i, j - 1)%nat (i, j - 1 + 1)%nat))).
      * now rewrite (big_guard_first (fun j => g (i, j) (i, j + 1)%nat)).
      * intros j _. destruct (Nat.ltb_spec 0 j) as [Hj|_]; [|reflexivity].
        simpl. replace (j - 1 + 1)%nat with j by lia. apply Hsym.
Qed.
End Sums.

(** ** The loops of the metrics *)

Section MetricLoops.
Local Open Scope R_scope.

Lemma norm_sq_diff_ok (a b : list R) :
  length a = length b -> norm_sq_diff a b = Ok (sq_dist a b).
Proof.
  intros E. unfold norm_sq_diff, np_sub.
  rewrite np_broadcast_same by exact E. result_simpl.
  rewrite np_norm_euclidean. cbn [fmul R_scalar].
  now rewrite euclidean_norm_sq.
Qed.

Lemma sq_dist_nonneg (a b : list R) : 0 <= sq_dist a b.
Proof. apply sum_sq_nonneg. Qed.

Lemma sq_dist_sym (a b : list R) : sq_dist a b = sq_dist b a.
Proof.
  unfold sq_dist. revert b.
  induction a as [|u a IH]; intros [|v b]; simpl; try reflexivity.
  rewrite (IH b). ring.
Qed.

Lemma acc_is_start : acc_is (PyInt 0, 0%Z) 0 0.
Proof. repeat split. Qed.

Lemma acc_is_eq (acc : pynum R * Z) (t t' : R) (c c' : nat) :
  acc_is acc t c -> t = t' -> c = c' -> acc_is acc t' c'.
Proof. now intros H -> ->. Qed.

Lemma add_pair_ok (acc : pynum R * Z) (t : R) (c : nat) (a b : list R) :
  acc_is acc t c -> length a = length b ->
  exists acc', add_pair acc a b = Ok acc'
               /\ acc_is acc' (t + sq_dist a b) (c + 1).
Proof.
  intros (Ht & Hc & _) E. unfold add_pair.
  rewrite norm_sq_diff_ok by exact E. result_simpl.
  eexists. split; [reflexivity|]. repeat split; simpl.
  - now rewrite Ht.
  - rewrite Hc. lia.
  - lia.
Qed.

Lemma fold_result_inv {A S : Type} (I : S -> Prop) (l : list A)
    (body : S -> A -> result S) :
  (forall a, a ∈ l -> forall s, I s -> exists s', body s a = Ok s' /\ I s') ->
  forall s, I s -> exists s', fold_result l body s = Ok s' /\ I s'.
Proof.
  induction l as [|a l IH]; intros Hbody s Hs; simpl.
  - eauto.
  - destruct (Hbody a (list_elem_of_here a l) s Hs) as (s1 & -> & H1).
    result_simpl. apply IH; [|exact H1].
    intros b Hb. apply Hbody. now right.
Qed.

Lemma fold_result_acc {A : Type} (l : list A)
    (body : pynum R * Z -> A -> result (pynum R * Z))
    (fR : A -> R) (fN : A -> nat) :
  (forall a, a ∈ l -> forall acc t c,
     acc_is acc t c ->
     exists acc', body acc a = Ok acc' /\ acc_is acc' (t + fR a) (c + fN a)) ->
  forall acc t c,
    acc_is acc t c ->
    exists acc',
      fold_result l body acc = Ok acc'
      /\ acc_is acc' (t + big 0 Rplus fR l) (c + big 0%nat Nat.add fN l).
Proof.
  induction l as [|a l IH]; intros Hbody acc t c Hacc; simpl.
  - exists acc. split; [reflexivity|].
    apply (acc_is_eq _ _ _ _ _ Hacc); [lra|lia].
  - destruct (Hbody a (list_elem_of_here a l) acc t c Hacc) as (acc1 & -> & H1).
    result_simpl.
    destruct (IH (fun b Hb => Hbody b (list_elem_of_further _ _ _ Hb))
                acc1 _ _ H1) as (acc2 & E2 & H2).
    exists acc2. split; [exact E2|].
    apply (acc_is_eq _ _ _ _ _ H2); [lra|lia].
Qed.

(** The division that ends a metric, on a counter that is not 0. *)
Lemma py_truediv_pos (acc : pynum R * Z) (t : R) (c : nat) :
  acc_is acc t c -> (0 < c)%nat ->
  py_truediv acc.1 acc.2 = Ok (NpFloat (t / INR c)).
Proof.
  intros (Ht & Hc & _) Hpos. rewrite Hc, INR_IZR_INZ. unfold py_truediv.
  destruct acc as [[m|v] n]; simpl in *.
  - destruct (Z.eqb_spec (Z.of_nat c) 0) as [E|_]; [lia|]. now rewrite Ht.
  - now rewrite Ht.
Qed.

(** And on a counter that is 0: the integer 0 divided by the integer 0. *)
Lemma py_truediv_zero (acc : pynum R * Z) (t : R) :
  acc_is acc t 0 -> py_truediv acc.1 acc.2 = Raise "ZeroDivisionError".
Proof.
  intros (_ & Hc & H0). rewrite Hc, H0 by reflexivity. reflexivity.
Qed.

Lemma Z_ltb_pred (i n : nat) :
  (Z.of_nat i <? Z.of_nat n - 1)%Z = (i + 1 <? n)%nat.
Proof.
  destruct (Z.ltb_spec (Z.of_nat i) (Z.of_nat n - 1));
    destruct (Nat.ltb_spec (i + 1) n); reflexivity || lia.
Qed.

Lemma big_const (c n : nat) :
  big 0%nat Nat.add (fun _ : nat => c) (range n) = (n * c)%nat.
Proof.
  transitivity (length (range n) * c)%nat.
  - induction (range n) as [|a l IH]; simpl; [reflexivity|]. now rewrite IH.
  - unfold range. now rewrite length_seq.
Qed.

Lemma over_edges_count (h wd : nat) :
  over_edges 0%nat Nat.add (fun _ _ => 1%nat) h wd = edge_count h wd.
Proof.
  unfold over_edges, edge_count.
  rewrite (big_ext 0%nat Nat.add _ (fun _ => (wd - 1)%nat))
    by (intros i _; rewrite big_const; lia).
  rewrite (big_ext 0%nat Nat.add
             (fun i => big 0%nat Nat.add (fun j => 1%nat) (range wd))
             (fun _ => wd))
    by (intros i _; rewrite big_const; lia).
  now rewrite !big_const.
Qed.

Lemma big_nonneg {A : Type} (f : A -> R) (l : list A) :
  (forall a, 0 <= f a) -> 0 <= big 0 Rplus f l.
Proof.
  intros Hf. induction l as [|a l IH]; simpl; [lra|].
  specialize (Hf a). lra.
Qed.
End MetricLoops.

Section WeightGrid.
Local Open Scope R_scope.

Variables (w : ndarray R) (h wd d : nat).
Hypothesis Hw : weights_shape h wd d (items w).

Let sqd (p q : nat * nat) : R := sq_dist (cell (items w) p) (cell (items w) q).
Let one (p q : nat * nat) : nat := 1%nat.

Lemma getitem2_cell (i j : nat) :
  (i < h)%nat -> (j < wd)%nat ->
  getitem2 (items w) i j = Ok (cell (items w) (i, j)).
Proof.
  intros Hi Hj. unfold getitem2, cell. simpl.
  destruct (proj2 (grid_shape_lookup2 h wd (items w) i j (proj1 Hw))
              (conj Hi Hj)) as [c ->].
  reflexivity.
Qed.

Lemma length_cell (i j : nat) :
  (i < h)%nat -> (j < wd)%nat -> length (cell (items w) (i, j)) = d.
Proof.
  intros Hi Hj. unfold cell. simpl.
  destruct (proj2 (grid_shape_lookup2 h wd (items w) i j (proj1 Hw))
              (conj Hi Hj)) as [c Hc].
  rewrite Hc. simpl. apply (proj2 Hw i j c Hc).
Qed.

(** A neighbour taken if it is there. *)
Lemma guarded_neighbour (cond : bool) (acc : pynum R * Z) (t : R) (c : nat)
    (i j k l : nat) :
  acc_is acc t c ->
  (i < h)%nat -> (j < wd)%nat ->
  (cond = true -> (k < h)%nat /\ (l < wd)%nat) ->
  exists acc',
    (if cond
     then b ← getitem2 (items w) k l; add_pair acc (cell (items w) (i, j)) b
     else mret acc) = Ok acc'
    /\ acc_is acc' (t + guard 0 cond (sqd (i, j) (k, l)))
         (c + guard 0%nat cond (one (i, j) (k, l))).
Proof.
  intros Hacc Hi Hj Hcond. destruct cond; simpl.
  - destruct (Hcond eq_refl) as [Hk Hl].
    rewrite getitem2_cell by assumption. result_simpl.
    apply add_pair_ok; [exact Hacc|]. now rewrite !length_cell.
  - exists acc. split; [reflexivity|].
    apply (acc_is_eq _ _ _ _ _ Hacc); [lra|lia].
Qed.

Lemma guarded_pair_at (cond : bool) (acc : pynum R * Z) (t : R) (c : nat)
    (i j k l : nat) :
  acc_is acc t c ->
  (i < h)%nat -> (j < wd)%nat ->
  (cond = true -> (k < h)%nat /\ (l < wd)%nat) ->
  exists acc',
    (if cond then add_pair_at w acc i j k l else mret acc) = Ok acc'
    /\ acc_is acc' (t + guard 0 cond (sqd (i, j) (k, l)))
         (c + guard 0%nat cond (one (i, j) (k, l))).
Proof.
  intros Hacc Hi Hj Hcond.
  destruct (guarded_neighbour cond acc t c i j k l Hacc Hi Hj Hcond)
    as (acc' & E & H').
  exists acc'. split; [|exact H'].
  destruct cond; [|exact E]. unfold add_pair_at.
  rewrite (getitem2_cell i j Hi Hj). exact E.
Qed.

(** The two loops of [distorsion_locale_moyenne]. *)
Lemma distorsion_loops :
  exists acc,
    fold_result (range h) (fun acc i =>
      fold_result (range wd) (fun acc j =>
        current ← getitem2 (items w) i j;
        acc ← (if (i + 1 <? h)%nat
               then below ← getitem2 (items w) (i + 1) j;
                    add_pair acc current below
               else mret acc);
        if (j + 1 <? wd)%nat
        then right ← getitem2 (items w) i (j + 1); add_pair acc current right
        else mret acc) acc) (PyInt 0, 0%Z) = Ok acc
    /\ acc_is acc (edge_distortion (items w) h wd) (edge_count h wd).
Proof.
  destruct (fold_result_acc (range h)
              (fun acc i =>
                 fold_result (range wd) (fun acc j =>
                   current ← getitem2 (items w) i j;
                   acc ← (if (i + 1 <? h)%nat
                          then below ← getitem2 (items w) (i + 1) j;
                               add_pair acc current below
                          else mret acc);
                   if (j + 1 <? wd)%nat
                   then right ← getitem2 (items w) i (j + 1);
                        add_pair acc current right
                   else mret acc) acc)
              (fun i => big 0 Rplus (fun j =>
                 guard 0 (i + 1 <? h)%nat (sqd (i, j) (i + 1, j)%nat)
                 + guard 0 (j + 1 <? wd)%nat (sqd (i, j) (i, j + 1)%nat))
                 (range wd))
              (fun i => big 0%nat Nat.add (fun j =>
                 guard 0 (i + 1 <? h)%nat (one (i, j) (i + 1, j)%nat)
                 + guard 0 (j + 1 <? wd)%nat (one (i, j) (i, j + 1)%nat))%nat
                 (range wd)))
    with (acc := (PyInt 0 : pynum R, 0%Z)) (t := 0) (c := 0%nat)
    as (acc & E & Hacc).
  - intros i Hi acc t c Hacc. apply elem_of_seq in Hi.
    apply fold_result_acc; [|exact Hacc].
    intros j Hj acc1 t1 c1 Hacc1. apply elem_of_seq in Hj.
    rewrite (getitem2_cell i j) by lia. result_simpl.
    destruct (guarded_neighbour (i + 1 <? h)%nat acc1 t1 c1 i j (i + 1) j)
      as (acc2 & -> & Hacc2); [assumption|lia|lia| |].
    { intros Hc. apply Nat.ltb_lt in Hc. lia. }
    result_simpl.
    destruct (guarded_neighbour (j + 1 <? wd)%nat acc2 _ _ i j i (j + 1) Hacc2)
      as (acc3 & -> & Hacc3); [lia|lia| |].
    { intros Hc. apply Nat.ltb_lt in Hc. lia. }
    exists acc3. split; [reflexivity|].
    apply (acc_is_eq _ _ _ _ _ Hacc3); [lra|lia].
  - apply acc_is_start.
  - exists acc. split; [exact E|].
    apply (acc_is_eq _ _ _ _ _ Hacc).
    + rewrite Rplus_0_l. unfold edge_distortion.
      rewrite <- (over_below_right_edges 0 Rplus).
      * reflexivity.
      * intros; ring.
      * intros; ring.
      * intros; ring.
    + rewrite <- over_edges_count.
      rewrite <- (over_below_right_edges 0%nat Nat.add).
      * reflexivity.
      * intros; lia.
      * intros; lia.
      * intros; lia.
Qed.

Lemma fold_add_pair (a : list R) (nbs : list (list R)) :
  Forall (fun b => length a = length b) nbs ->
  forall (acc : pynum R * Z) (t : R) (c : nat),
    acc_is acc t c ->
    exists acc',
      fold_result nbs (fun acc b => add_pair acc a b) acc = Ok acc'
      /\ acc_is acc' (t + big 0 Rplus (sq_dist a) nbs) (c + length nbs).
Proof.
  induction 1 as [|b nbs Hb _ IH]; intros acc t c Hacc; simpl.
  - exists acc. split; [reflexivity|].
    apply (acc_is_eq _ _ _ _ _ Hacc); [lra|lia].
  - destruct (add_pair_ok acc t c a b Hacc Hb) as (acc1 & -> & H1).
    result_simpl. destruct (IH acc1 _ _ H1) as (acc2 & E2 & H2).
    exists acc2. split; [exact E2|].
    apply (acc_is_eq _ _ _ _ _ H2); [lra|lia].
Qed.

(** [compute_local_roughness] on a grid of weights: every edge is met from
    both ends, and a grid without an edge goes through the guard. *)
Lemma roughness_spec :
  shape w = [h; wd; d] ->
  compute_local_roughness w =
    Ok (if (edge_count h wd =? 0)%nat then PyInt 0
        else NpFloat ((edge_distortion (items w) h wd
                       + edge_distortion (items w) h wd)
                      / INR (edge_count h wd + edge_count h wd))).
Proof.
  intros Hs. unfold compute_local_roughness. rewrite Hs.
  match goal with
  | |- context [fold_result (range h) ?body ?init] =>
      destruct (fold_result_acc (range h) body
                  (fun i => big 0 Rplus (around 0 Rplus sqd h wd i) (range wd))
                  (fun i => big 0%nat Nat.add (around 0%nat Nat.add one h wd i)
                              (range wd)))
        with (acc := init) (t := 0) (c := 0%nat) as (acc & E & Hacc)
  end.
  - intros i Hi acc t c Hacc. apply elem_of_seq in Hi.
    apply fold_result_acc; [|exact Hacc].
    intros j Hj acc1 t1 c1 Hacc1. apply elem_of_seq in Hj.
    rewrite (getitem2_cell i j) by lia. result_simpl.
    rewrite !Z_ltb_pred. unfold around, one.
    destruct (Nat.ltb_spec 0 i); destruct (Nat.ltb_spec (i + 1) h);
      destruct (Nat.ltb_spec 0 j); destruct (Nat.ltb_spec (j + 1) wd);
      repeat (rewrite getitem2_cell by lia; result_simpl);
      result_simpl; cbn [app guard];
      match goal with
      | |- context [fold_result ?nbs _ acc1] =>
          destruct (fold_add_pair (cell (items w) (i, j)) nbs) with
            (acc := acc1) (t := t1) (c := c1) as (acc2 & E2 & Hacc2);
            [repeat constructor; rewrite !length_cell by lia; reflexivity
            |exact Hacc1|]
      end;
      (exists acc2; split; [exact E2|];
       apply (acc_is_eq _ _ _ _ _ Hacc2); [unfold sqd; simpl; lra|simpl; lia]).
  - apply acc_is_start.
  - rewrite E. result_simpl.
    assert (Hacc' : acc_is acc
              (edge_distortion (items w) h wd + edge_distortion (items w) h wd)
              (edge_count h wd + edge_count h wd)).
    { apply (acc_is_eq _ _ _ _ _ Hacc).
      - rewrite Rplus_0_l. unfold edge_distortion.
        rewrite <- (over_neighbours_edges 0 Rplus).
        + reflexivity.
        + intros; ring.
        + intros; ring.
        + intros; ring.
        + intros p q. apply sq_dist_sym.
      - rewrite <- !over_edges_count.
        rewrite <- (over_neighbours_edges 0%nat Nat.add).
        + reflexivity.
        + intros; lia.
        + intros; lia.
        + intros; lia.
        + reflexivity. }
    destruct (Nat.eqb_spec (edge_count h wd) 0) as [E0|Hne].
    + destruct Hacc' as (_ & -> & _). rewrite E0. reflexivity.
    + pose proof Hacc' as (_ & Hc & _).
      destruct (Z.ltb_spec 0 acc.2); [|lia].
      apply (py_truediv_pos _ _ _ Hacc'). lia.
Qed.

(** [distorsion_locale_moyenne], from [total = 0] on: every edge is met
    once, and the division is not guarded. *)
Lemma distorsion_spec :
  distorsion_of_weights (h, wd) w =
    if (edge_count h wd =? 0)%nat then Raise "ZeroDivisionError"
    else Ok (NpFloat (edge_distortion (items w) h wd / INR (edge_count h wd))).
Proof.
  unfold distorsion_of_weights. cbn [fst snd].
  destruct distorsion_loops as (acc & -> & Hacc). result_simpl.
  destruct (Nat.eqb_spec (edge_count h wd) 0) as [E0|Hne].
  - rewrite E0 in Hacc. apply (py_truediv_zero _ _ Hacc).
  - apply (py_truediv_pos _ _ _ Hacc). lia.
Qed.

(** The heat map: a grid of the size of the map, of values that are not
    negative. *)
Lemma heatmap_spec :
  exists heatmap,
    heatmap_of_weights (h, wd) w = Ok heatmap
    /\ grid_shape h wd heatmap
    /\ forall i j v, lookup2 i j heatmap = Some v -> 0 <= v.
Proof.
  unfold heatmap_of_weights. cbn [fst snd].
  apply (fold_result_inv
           (fun hm => grid_shape h wd hm
                      /\ forall i j v, lookup2 i j hm = Some v -> 0 <= v)).
  - intros i Hi hm Hhm. apply elem_of_seq in Hi.
    apply fold_result_inv; [|exact Hhm].
    intros j Hj hm1 [Hshape Hpos]. apply elem_of_seq in Hj.
    rewrite !Z_ltb_pred.
    destruct (guarded_pair_at (0 <? i)%nat (PyInt 0, 0%Z) 0 0 i j (i - 1) j)
      as (acc1 & -> & H1); [apply acc_is_start|lia|lia| |].
    { intros Hc. apply Nat.ltb_lt in Hc. lia. }
    result_simpl.
    destruct (guarded_pair_at (i + 1 <? h)%nat acc1 _ _ i j (i + 1) j H1)
      as (acc2 & -> & H2); [lia|lia| |].
    { intros Hc. apply Nat.ltb_lt in Hc. lia. }
    result_simpl.
    destruct (guarded_pair_at (0 <? j)%nat acc2 _ _ i j i (j - 1) H2)
      as (acc3 & -> & H3); [lia|lia| |].
    { intros Hc. apply Nat.ltb_lt in Hc. lia. }
    result_simpl.
    destruct (guarded_pair_at (j + 1 <? wd)%nat acc3 _ _ i j i (j + 1) H3)
      as (acc4 & -> & H4); [lia|lia| |].
    { intros Hc. apply Nat.ltb_lt in Hc. lia. }
    result_simpl.
    match type of H4 with
    | acc_is _ ?t ?c =>
        assert (Ht : 0 <= t)
          by (repeat apply Rplus_le_le_0_compat; try lra;
              match goal with
              | |- 0 <= guard 0 ?b _ =>
                  destruct b; simpl; [apply sq_dist_nonneg|lra]
              end);
        assert (exists v, (if (0 <? acc4.2)%Z then py_truediv acc4.1 acc4.2
                           else mret (PyInt 0)) = Ok v
                          /\ 0 <= to_float v) as (v & -> & Hv)
    end.
    { pose proof H4 as (_ & Hc & _).
      destruct (Z.ltb_spec 0 acc4.2) as [Hpos'|_].
      - eexists. split; [apply (py_truediv_pos _ _ _ H4); lia|]. simpl.
        apply Rmult_le_pos; [exact Ht|].
        apply Rlt_le, Rinv_0_lt_compat, lt_0_INR. lia.
      - exists (PyInt 0). split; [reflexivity|]. simpl. lra. }
    result_simpl. unfold setitem2.
    destruct (proj2 (grid_shape_lookup2 h wd hm1 i j Hshape)) as [old Hold];
      [lia|].
    rewrite Hold. eexists. split; [reflexivity|]. split.
    + now apply grid_shape_insert2.
    + intros p q x. rewrite lookup2_insert2, Hold.
      destruct (decide (p = i /\ q = j)); [|apply Hpos].
      simpl. intros [= <-]. exact Hv.
  - split.
    + split; [apply length_replicate|].
      apply Forall_replicate, length_replicate.
    + intros i j v. unfold lookup2, np_zeros. intros Hv.
      destruct (replicate h (replicate wd (of_int 0)) !! i) as [row|] eqn:Hrow;
        [|discriminate].
      apply lookup_replicate in Hrow as [-> _]. simpl in Hv.
      apply lookup_replicate in Hv as [-> _]. simpl. lra.
Qed.
End WeightGrid.

(** ** The metrics of a map *)

Section MetricClaims.
Local Open Scope R_scope.

Lemma lookup2_fmap {A B : Type} (f : A -> B) (g : list (list A)) (i j : nat) :
  lookup2 i j ((fun row : list A => f <$> row) <$> g) = f <$> lookup2 i j g.
Proof.
  unfold lookup2. rewrite list_lookup_fmap.
  destruct (g !! i) as [row|]; simpl; [|reflexivity].
  apply list_lookup_fmap.
Qed.

Lemma wf_weights_shape (network : SOM.t) :
  wf network ->
  weights_shape (SOM.gridsize network).1 (SOM.gridsize network).2
    (dimension (SOM.inputsize network)) (SOM.weightsmap network).
Proof.
  intros Hwf. destruct (wf_map network Hwf) as [Hh Hrows]. split.
  - split.
    + unfold SOM.weightsmap. now rewrite length_fmap.
    + unfold SOM.weightsmap. apply Forall_fmap.
      eapply Forall_impl; [exact Hrows|].
      intros row Hrow. simpl. now rewrite length_fmap.
  - intros i j c. unfold SOM.weightsmap. rewrite lookup2_fmap.
    destruct (lookup2 i j (SOM.map network)) as [n|] eqn:Hn; [|discriminate].
    simpl. intros [= <-]. apply (wf_neuron network Hwf i j n Hn).
Qed.

Lemma wf_np_array_shape (network : SOM.t) :
  wf network ->
  (0 < (SOM.gridsize network).1)%nat -> (0 < (SOM.gridsize network).2)%nat ->
  shape (np_array (SOM.weightsmap network))
  = [(SOM.gridsize network).1; (SOM.gridsize network).2;
     dimension (SOM.inputsize network)].
Proof.
  intros Hwf Hh Hwd.
  destruct (wf_weights_shape network Hwf) as [[Hlen Hrows] Hcells].
  unfold np_array. simpl.
  destruct (SOM.weightsmap network) as [|line wm] eqn:E; simpl in *; [lia|].
  apply Forall_cons in Hrows as [Hline _].
  destruct line as [|a line]; simpl in *; [lia|].
  rewrite Hlen, Hline. do 2 f_equal.
  now rewrite (Hcells 0%nat 0%nat a eq_refl).
Qed.

Lemma edge_count_pos (h wd : nat) :
  (0 < edge_count h wd)%nat -> (0 < h)%nat /\ (0 < wd)%nat.
Proof.
  unfold edge_count. intros Hpos. destruct h, wd; simpl in *; lia.
Qed.

(** The value of [distorsion_locale_moyenne] and of the roughness of the
    script on a well-formed map. *)
Lemma distorsion_value (network : SOM.t) :
  wf network ->
  distorsion_locale_moyenne network =
    if (edge_count (SOM.gridsize network).1 (SOM.gridsize network).2 =? 0)%nat
    then Raise "ZeroDivisionError"
    else Ok (NpFloat
               (edge_distortion (SOM.weightsmap network)
                  (SOM.gridsize network).1 (SOM.gridsize network).2
                / INR (edge_count (SOM.gridsize network).1
                         (SOM.gridsize network).2))).
Proof.
  intros Hwf. unfold distorsion_locale_moyenne.
  rewrite (surjective_pairing (SOM.gridsize network)) at 1.
  apply (distorsion_spec (np_array (SOM.weightsmap network)) _ _ _
           (wf_weights_shape network Hwf)).
Qed.

Lemma rugosite_value (network : SOM.t) :
  wf network ->
  (0 < (SOM.gridsize network).1)%nat -> (0 < (SOM.gridsize network).2)%nat ->
  rugosite_locale_moyenne network =
    Ok (if (edge_count (SOM.gridsize network).1 (SOM.gridsize network).2 =? 0)%nat
        then PyInt 0
        else NpFloat
               ((edge_distortion (SOM.weightsmap network)
                   (SOM.gridsize network).1 (SOM.gridsize network).2
                 + edge_distortion (SOM.weightsmap network)
                     (SOM.gridsize network).1 (SOM.gridsize network).2)
                / INR (edge_count (SOM.gridsize network).1
                         (SOM.gridsize network).2
                       + edge_count (SOM.gridsize network).1
                           (SOM.gridsize network).2))).
Proof.
  intros Hwf Hh Hwd. unfold rugosite_locale_moyenne.
  apply (roughness_spec (np_array (SOM.weightsmap network)) _ _ _
           (wf_weights_shape network Hwf)).
  now apply wf_np_array_shape.
Qed.

(** C6. On a well-formed map with at least one edge,
    [distorsion_locale_moyenne] returns the sum of the squared Euclidean
    distances between the weights of the two ends of every edge -- the
    edges to a right neighbour, [(i, j)-(i, j+1)] for [i < h] and
    [j < wd - 1], and the edges to a bottom neighbour, [(i, j)-(i+1, j)]
    for [i < h - 1] and [j < wd], each one once -- divided by the number of
    these edges, [h * (wd - 1) + (h - 1) * wd].  On a map without an edge,
    as the map of one row and one column, nothing guards the division: it
    raises [ZeroDivisionError]. *)
Theorem distorsion_is_mean_over_edges (network : SOM.t) :
  wf network ->
  let h := (SOM.gridsize network).1 in
  let wd := (SOM.gridsize network).2 in
  let W := cell (SOM.weightsmap network) in
  ((0 < h * (wd - 1) + (h - 1) * wd)%nat ->
   distorsion_locale_moyenne network =
     Ok (NpFloat
           ((big 0 Rplus (fun i =>
               big 0 Rplus (fun j => sq_dist (W (i, j)) (W (i, j + 1)%nat))
                 (range (wd - 1))) (range h)
             + big 0 Rplus (fun i =>
                 big 0 Rplus (fun j => sq_dist (W (i, j)) (W (i + 1, j)%nat))
                   (range wd)) (range (h - 1)))
            / INR (h * (wd - 1) + (h - 1) * wd))))
  /\ (SOM.gridsize network = (1%nat, 1%nat) ->
      distorsion_locale_moyenne network = Raise "ZeroDivisionError").
Proof.
  intros Hwf h wd W. rewrite (distorsion_value network Hwf).
  fold h. fold wd. split.
  - intros Hpos. unfold edge_count.
    destruct (Nat.eqb_spec (h * (wd - 1) + (h - 1) * wd) 0); [lia|].
    reflexivity.
  - intros E. subst h wd. rewrite E. reflexivity.
Qed.

Lemma distorsion_is_mean_over_edges_witness :
  distorsion_locale_moyenne som_1x2 =
    Ok (NpFloat
          ((big 0 Rplus (fun i =>
              big 0 Rplus (fun j =>
                sq_dist (cell (SOM.weightsmap som_1x2) (i, j))
                        (cell (SOM.weightsmap som_1x2) (i, j + 1)%nat))
                (range (2 - 1))) (range 1)
            + big 0 Rplus (fun i =>
                big 0 Rplus (fun j =>
                  sq_dist (cell (SOM.weightsmap som_1x2) (i, j))
                          (cell (SOM.weightsmap som_1x2) (i + 1, j)%nat))
                  (range 2)) (range (1 - 1)))
           / INR (1 * (2 - 1) + (1 - 1) * 2))).
Proof.
  apply (distorsion_is_mean_over_edges som_1x2 som_1x2_wf). simpl. lia.
Defined.

(** C7. [compute_local_roughness] on a grid of weights of shape
    [(h, wd, d)] returns a value that is not negative, and on one row and
    one column the integer 0 of its guard ([... if count > 0 else 0]); the
    roughness the script computes for a map of one neuron is that 0.  The
    heat map of a well-formed map has the size of the map and no negative
    value, and for a map of one neuron it is the single value 0, again
    from the guard. *)
Theorem roughness_and_heatmap_nonneg :
  (forall (weight_grid : ndarray R) (h wd d : nat),
     shape weight_grid = [h; wd; d] ->
     weights_shape h wd d (items weight_grid) ->
     exists v : pynum R,
       compute_local_roughness weight_grid = Ok v
       /\ 0 <= to_float v
       /\ (h = 1%nat -> wd = 1%nat -> v = PyInt 0))
  /\ (forall network : SOM.t,
        wf network ->
        SOM.gridsize network = (1%nat, 1%nat) ->
        rugosite_locale_moyenne network = Ok (PyInt 0))
  /\ (forall network : SOM.t,
        wf network ->
        exists heatmap : list (list R),
          carte_de_chaleur_distorsion network = Ok heatmap
          /\ grid_shape (SOM.gridsize network).1 (SOM.gridsize network).2 heatmap
          /\ (forall i j v, lookup2 i j heatmap = Some v -> 0 <= v)
          /\ (SOM.gridsize network = (1%nat, 1%nat) -> heatmap = [[0]])).
Proof.
  split; [|split].
  - intros weight_grid h wd d Hs Hw.
    rewrite (roughness_spec weight_grid h wd d Hw Hs).
    eexists. split; [reflexivity|]. split.
    + destruct (Nat.eqb_spec (edge_count h wd) 0) as [E0|Hne]; simpl; [lra|].
      assert (0 <= edge_distortion (items weight_grid) h wd).
      { unfold edge_distortion, over_edges.
        apply Rplus_le_le_0_compat; apply big_nonneg; intros i;
          apply big_nonneg; intros j; apply sq_dist_nonneg. }
      apply Rmult_le_pos; [lra|].
      apply Rlt_le, Rinv_0_lt_compat, lt_0_INR. lia.
    + intros -> ->. reflexivity.
  - intros network Hwf E.
    rewrite (rugosite_value network Hwf) by (rewrite E; simpl; lia).
    now rewrite E.
  - intros network Hwf. unfold carte_de_chaleur_distorsion.
    pose proof (wf_weights_shape network Hwf) as Hw.
    destruct (SOM.gridsize network) as [h wd]. simpl in Hw |- *.
    destruct (heatmap_spec (np_array (SOM.weightsmap network)) h wd _ Hw)
      as (hm & E & Hshape & Hpos).
    exists hm. repeat (split; [assumption|]).
    intros [= -> ->]. revert E. unfold heatmap_of_weights. simpl.
    intros [= <-]. reflexivity.
Qed.

Lemma roughness_and_heatmap_nonneg_witness :
  (exists v : pynum R,
     compute_local_roughness (np_array (SOM.weightsmap som_1x2)) = Ok v
     /\ 0 <= to_float v)
  /\ rugosite_locale_moyenne som_1x1 = Ok (PyInt 0)
  /\ exists heatmap : list (list R),
       carte_de_chaleur_distorsion som_1x1 = Ok heatmap
       /\ heatmap = [[0]].
Proof.
  destruct roughness_and_heatmap_nonneg as (H1 & H2 & H3).
  split; [|split].
  - destruct (H1 (np_array (SOM.weightsmap som_1x2)) 1%nat 2%nat 1%nat)
      as (v & E & Hv & _).
    + reflexivity.
    + apply (wf_weights_shape som_1x2 som_1x2_wf).
    + exists v. auto.
  - apply (H2 som_1x1 som_1x1_wf). reflexivity.
  - destruct (H3 som_1x1 som_1x1_wf) as (hm & E & _ & _ & H11).
    exists hm. split; [exact E|]. apply H11. reflexivity.
Defined.

(** C10, in exact arithmetic.  Over the real numbers, on a well-formed map
    with at least one edge, the roughness the script computes is the very
    value of [distorsion_locale_moyenne]: every edge is counted from both
    ends, which doubles the sum and the count. *)
Theorem roughness_equals_distortion_over_reals (network : SOM.t) :
  wf network ->
  (0 < edge_count (SOM.gridsize network).1 (SOM.gridsize network).2)%nat ->
  exists v : R,
    distorsion_locale_moyenne network = Ok (NpFloat v)
    /\ rugosite_locale_moyenne network = Ok (NpFloat v).
Proof.
  intros Hwf Hpos. destruct (edge_count_pos _ _ Hpos) as [Hh Hwd].
  rewrite (distorsion_value network Hwf), (rugosite_value network Hwf Hh Hwd).
  destruct (Nat.eqb_spec
              (edge_count (SOM.gridsize network).1 (SOM.gridsize network).2) 0)
    as [E0|Hne]; [lia|].
  eexists. split; [reflexivity|]. do 2 f_equal.
  rewrite plus_INR.
  assert (0 < INR (edge_count (SOM.gridsize network).1
                     (SOM.gridsize network).2)) by (apply lt_0_INR; lia).
  field. split; lra.
Qed.

Lemma roughness_equals_distortion_over_reals_witness :
  exists v : R,
    distorsion_locale_moyenne som_1x2 = Ok (NpFloat v)
    /\ rugosite_locale_moyenne som_1x2 = Ok (NpFloat v).
Proof.
  apply (roughness_equals_distortion_over_reals som_1x2 som_1x2_wf).
  unfold edge_count. simpl. lia.
Defined.
End MetricClaims.

(** ** The metrics in binary64 *)

(** C10 as stated fails in the arithmetic numpy computes with.  On a map of
    one row and three neurons of weights 1, 0 and [- 3 * 2^-28], the two
    squared distances are 1 and [9 * 2^-56].  [distorsion_locale_moyenne]
    adds them to 0 in turn, which rounds up to [1 + 2^-52], and returns half
    of it; [compute_local_roughness] adds 1, 1, [9 * 2^-56] and [9 * 2^-56],
    and each of the last two additions rounds back to 2, so it returns
    exactly one half, a smaller value. *)
Lemma roughness_differs_in_binary64 :
  exists d r : PrimFloat.float,
    distorsion_of_weights (1%nat, 3%nat) (np_array binary64_row) = Ok (NpFloat d)
    /\ compute_local_roughness (np_array binary64_row) = Ok (NpFloat r)
    /\ PrimFloat.ltb r d = true.
Proof.
  eexists _, _. split; [vm_compute; reflexivity|].
  split; [vm_compute; reflexivity|]. vm_compute. reflexivity.
Qed.


(** * Beyond the claims *)

(** ** The maps [compute] and [learn] return *)

Section ClosedForms.
Local Open Scope R_scope.

Lemma grid_ext {A : Type} (h w : nat) (g g' : list (list A)) :
  grid_shape h w g -> grid_shape h w g' ->
  (forall i j, lookup2 i j g = lookup2 i j g') -> g = g'.
Proof.
  intros [Hh Hw] [Hh' Hw'] Heq. apply list_eq. intros i.
  destruct (g !! i) as [row|] eqn:Hrow.
  - assert (Hi : (i < length g')%nat)
      by (rewrite Hh', <- Hh; eapply lookup_lt_Some, Hrow).
    destruct (lookup_lt_is_Some_2 g' i Hi) as [row' Hrow'].
    rewrite Hrow'. f_equal. apply list_eq. intros j.
    specialize (Heq i j). unfold lookup2 in Heq.
    now rewrite Hrow, Hrow' in Heq.
  - symmetry. apply lookup_ge_None_2. apply lookup_ge_None_1 in Hrow. lia.
Qed.

Lemma grid_shape_fmap {A B : Type} (f : A -> B) (h w : nat) (g : list (list A)) :
  grid_shape h w g -> grid_shape h w (grid_fmap f g).
Proof.
  intros [Hh Hw]. unfold grid_fmap. split.
  - now rewrite length_fmap.
  - apply Forall_fmap. eapply Forall_impl; [exact Hw|].
    intros row Hrow. simpl. now rewrite length_fmap.
Qed.

Lemma lookup2_grid_fmap {A B : Type} (f : A -> B) (g : list (list A)) (i j : nat) :
  lookup2 i j (grid_fmap f g) = f <$> lookup2 i j g.
Proof. apply lookup2_fmap. Qed.

(** The map in which every neuron went through [f]. *)
Lemma cells_all_closed (f : Neuron.t -> Neuron.t) (act : Neuron.t -> R -> R)
    (s0 s : SOM.t) :
  wf s0 ->
  cells f act s0 (fun _ _ => True) s ->
  s = SOM.mk (SOM.inputsize s0) (SOM.gridsize s0)
        (grid_fmap f (SOM.map s0))
        (grid_fmap (fun n => act n (Neuron.y n)) (SOM.map s0)).
Proof.
  intros Hwf (Hg & Hi & Hm & Ha & Hc).
  destruct s as [isz gsz m am]. simpl in *. subst isz gsz.
  assert (Hnone : forall i j, lookup2 i j (SOM.map s0) = None ->
            lookup2 i j m = None /\ lookup2 i j am = None).
  { intros i j Hn. split.
    - destruct (lookup2 i j m) as [n|] eqn:E; [|reflexivity].
      assert (is_Some (lookup2 i j (SOM.map s0))) as [n0 Hn0].
      { apply (grid_shape_lookup2 _ _ _ _ _ (wf_map s0 Hwf)).
        apply (grid_shape_lookup2 _ _ _ _ _ Hm). eauto. }
      congruence.
    - destruct (lookup2 i j am) as [a|] eqn:E; [|reflexivity].
      assert (is_Some (lookup2 i j (SOM.map s0))) as [n0 Hn0].
      { apply (grid_shape_lookup2 _ _ _ _ _ (wf_map s0 Hwf)).
        apply (grid_shape_lookup2 _ _ _ _ _ Ha). eauto. }
      congruence. }
  f_equal.
  - apply (grid_ext _ _ _ _ Hm (grid_shape_fmap f _ _ _ (wf_map s0 Hwf))).
    intros i j. rewrite lookup2_grid_fmap.
    destruct (lookup2 i j (SOM.map s0)) as [n0|] eqn:Hn0; simpl.
    + pose proof (wf_sync s0 Hwf i j) as Hs. rewrite Hn0 in Hs. simpl in Hs.
      now destruct (Hc i j n0 _ Hn0 Hs) as [[Hn' _] _].
    + now apply Hnone.
  - apply (grid_ext _ _ _ _ Ha (grid_shape_fmap _ _ _ _ (wf_map s0 Hwf))).
    intros i j. rewrite lookup2_grid_fmap.
    destruct (lookup2 i j (SOM.map s0)) as [n0|] eqn:Hn0; simpl.
    + pose proof (wf_sync s0 Hwf i j) as Hs. rewrite Hn0 in Hs. simpl in Hs.
      now destruct (Hc i j n0 _ Hn0 Hs) as [[_ Ha'] _].
    + now apply Hnone.
Qed.

Lemma compute_computed (x : list R) (s0 : SOM.t) :
  wf s0 -> length x = dimension (SOM.inputsize s0) ->
  SOM.compute x s0 = (Ok tt, computed x s0) /\ wf (computed x s0).
Proof.
  intros Hwf Hx. destruct (compute_ok s0 Hwf x Hx) as (s & E & Hcells).
  pose proof (compute_wf s0 Hwf x s Hcells) as Hwfs.
  rewrite (cells_all_closed _ _ s0 s Hwf Hcells) in E, Hwfs. auto.
Qed.

Lemma activitymap_of_sync (s : SOM.t) :
  wf s -> SOM.activitymap s = grid_fmap Neuron.y (SOM.map s).
Proof.
  intros Hwf.
  apply (grid_ext _ _ _ _ (wf_activitymap s Hwf)
           (grid_shape_fmap Neuron.y _ _ _ (wf_map s Hwf))).
  intros i j. rewrite lookup2_grid_fmap. apply (wf_sync s Hwf).
Qed.

Lemma learn_taught (eta sigma : R) (x : list R) (bi bj : nat) (s0 : SOM.t) :
  wf s0 -> length x = dimension (SOM.inputsize s0) ->
  SOM.winner s0 = Ok (bi, bj) ->
  SOM.learn eta sigma x s0 = (Ok tt, taught eta sigma bi bj x s0)
  /\ wf (taught eta sigma bi bj x s0).
Proof.
  intros Hwf Hx Hwin.
  destruct (learn_ok s0 Hwf eta sigma x bi bj Hx Hwin) as (s & E & Hcells).
  pose proof (learn_wf s0 Hwf eta sigma _ _ x s Hx Hcells) as Hwfs.
  rewrite (cells_all_closed _ _ s0 s Hwf Hcells) in E, Hwfs.
  unfold taught. rewrite (activitymap_of_sync s0 Hwf). auto.
Qed.
End ClosedForms.

Section MapResults.
Local Open Scope R_scope.

Lemma grid_fmap_compose {A B C : Type} (f : B -> C) (g : A -> B)
    (m : list (list A)) :
  grid_fmap f (grid_fmap g m) = grid_fmap (fun a => f (g a)) m.
Proof.
  unfold grid_fmap. rewrite <- list_fmap_compose. apply list_fmap_ext.
  intros i row _. simpl. now rewrite <- list_fmap_compose.
Qed.

(** X1. On a well-formed map and an input of its dimension, [SOM.compute]
    returns, and the map it leaves is [computed x s0]: every neuron has its
    output [y] set to the Euclidean distance of its weights to the input,
    the activity map holds these same distances, and the weights, the
    positions and the sizes are what they were; the map is still well
    formed. *)
Theorem compute_sets_every_activity (x : list R) (s0 : SOM.t) :
  wf s0 -> length x = dimension (SOM.inputsize s0) ->
  SOM.compute x s0 = (Ok tt, computed x s0)
  /\ wf (computed x s0)
  /\ SOM.weightsmap (computed x s0) = SOM.weightsmap s0
  /\ forall i j n,
       lookup2 i j (SOM.map s0) = Some n ->
       lookup2 i j (SOM.activitymap (computed x s0))
       = Some (euclidean_norm (zip_with Rminus (Neuron.weights n) x)).
Proof.
  intros Hwf Hx. destruct (compute_computed x s0 Hwf Hx) as [E Hwf'].
  repeat (split; [assumption|]). split.
  - unfold SOM.weightsmap, computed. simpl.
    apply (grid_fmap_compose Neuron.weights (activated x)).
  - intros i j n Hn. unfold computed. simpl.
    now rewrite lookup2_grid_fmap, Hn.
Qed.

Lemma compute_sets_every_activity_witness :
  SOM.compute [1] som_1x2 = (Ok tt, computed [1] som_1x2)
  /\ wf (computed [1] som_1x2).
Proof.
  destruct (compute_sets_every_activity [1] som_1x2 som_1x2_wf) as (H1 & H2 & _);
    [reflexivity|]. auto.
Defined.

(** X2. [SOM.compute] is idempotent: computing the activity a second time
    with the same input, with no learning in between, returns and leaves the
    map exactly as the first call left it. *)
Theorem compute_twice_is_compute_once (x : list R) (s0 : SOM.t) :
  wf s0 -> length x = dimension (SOM.inputsize s0) ->
  exists s1,
    SOM.compute x s0 = (Ok tt, s1) /\ SOM.compute x s1 = (Ok tt, s1).
Proof.
  intros Hwf Hx. destruct (compute_computed x s0 Hwf Hx) as [E Hwf'].
  exists (computed x s0). split; [exact E|].
  destruct (compute_computed x (computed x s0) Hwf' Hx) as [E' _].
  rewrite E'. f_equal. unfold computed. simpl. f_equal.
  - apply (grid_fmap_compose (activated x) (activated x)).
  - apply (grid_fmap_compose (distance_to x) (activated x)).
Qed.

Lemma compute_twice_is_compute_once_witness :
  exists s1,
    SOM.compute [1] som_1x2 = (Ok tt, s1) /\ SOM.compute [1] s1 = (Ok tt, s1).
Proof.
  apply (compute_twice_is_compute_once [1] som_1x2 som_1x2_wf). reflexivity.
Defined.

(** X3. On a well-formed, non-empty map, an input of its dimension and
    [sigma <> 0], [SOM.learn] returns; the winner is a position of the grid, and the map
    left is [taught eta sigma bi bj x s0]: the weights of every neuron have
    moved by the learning rule centred on the winner, while the outputs, the
    positions, the sizes and the whole activity map are as they were (the
    activities are not refreshed by learning); the map is still well
    formed. *)
Theorem learn_moves_every_neuron (eta sigma : R) (x : list R) (s0 : SOM.t) :
  wf s0 ->
  (0 < (SOM.gridsize s0).1)%nat -> (0 < (SOM.gridsize s0).2)%nat ->
  length x = dimension (SOM.inputsize s0) ->
  sigma <> 0 ->
  exists bi bj : nat,
    SOM.winner s0 = Ok (bi, bj)
    /\ (bi < (SOM.gridsize s0).1)%nat /\ (bj < (SOM.gridsize s0).2)%nat
    /\ SOM.learn eta sigma x s0 = (Ok tt, taught eta sigma bi bj x s0)
    /\ wf (taught eta sigma bi bj x s0)
    /\ SOM.activitymap (taught eta sigma bi bj x s0) = SOM.activitymap s0
    /\ grid_fmap Neuron.y (SOM.map (taught eta sigma bi bj x s0))
       = grid_fmap Neuron.y (SOM.map s0).
Proof.
  intros Hwf Hh Hw Hx _.
  destruct (winner_spec s0 (wf_activitymap s0 Hwf) Hh Hw)
    as (bi & bj & m & Ew & Hm & _).
  destruct (learn_taught eta sigma x bi bj s0 Hwf Hx Ew) as [El Hwf'].
  exists bi, bj. split; [exact Ew|].
  assert ((bi < (SOM.gridsize s0).1)%nat /\ (bj < (SOM.gridsize s0).2)%nat)
    as [Hbi Hbj].
  { apply (grid_shape_lookup2 _ _ (SOM.activitymap s0) bi bj);
      [apply Hwf|eauto]. }
  repeat (split; [assumption|]). split; [reflexivity|].
  unfold taught. simpl.
  apply (grid_fmap_compose Neuron.y
           (learned eta sigma (Z.of_nat bi) (Z.of_nat bj) x)).
Qed.

Lemma learn_moves_every_neuron_witness :
  exists bi bj : nat,
    SOM.winner som_1x2 = Ok (bi, bj)
    /\ SOM.learn (1/2) 1 [1] som_1x2 = (Ok tt, taught (1/2) 1 bi bj [1] som_1x2).
Proof.
  destruct (learn_moves_every_neuron (1/2) 1 [1] som_1x2 som_1x2_wf)
    as (bi & bj & H1 & _ & _ & H2 & _);
    [simpl; lia | simpl; lia | reflexivity | lra |].
  exists bi, bj. auto.
Defined.
End MapResults.

(** ** Errors and empty maps *)

Section MapErrors.
Local Open Scope R_scope.

Lemma for_each_raise_head {A : Type} (a : A) (l : list A) (body : A -> SOM.M unit)
    (s s' : SOM.t) (e : exn) :
  body a s = (Raise e, s') -> SOM.for_each (a :: l) body s = (Raise e, s').
Proof. intros E. simpl. som_simpl. now rewrite E. Qed.

Lemma for_each_skip {A : Type} (l : list A) (body : A -> SOM.M unit) (s : SOM.t) :
  (forall a, body a s = (Ok tt, s)) -> SOM.for_each l body s = (Ok tt, s).
Proof.
  intros Hbody. induction l as [|a l IH]; simpl; [reflexivity|].
  som_simpl. now rewrite Hbody.
Qed.

Lemma compute_empty (x : list R) (s : SOM.t) :
  (SOM.gridsize s).1 = 0%nat \/ (SOM.gridsize s).2 = 0%nat ->
  SOM.compute x s = (Ok tt, s).
Proof.
  intros [E|E]; unfold SOM.compute; rewrite E.
  - reflexivity.
  - apply for_each_skip. intros posx. reflexivity.
Qed.

Lemma activitymap_empty (s : SOM.t) :
  wf s ->
  (SOM.gridsize s).1 = 0%nat \/ (SOM.gridsize s).2 = 0%nat ->
  concat (SOM.activitymap s) = [].
Proof.
  intros Hwf E. apply length_zero_iff_nil.
  rewrite (length_concat_grid _ _ _ (wf_activitymap s Hwf)).
  destruct E as [-> | ->]; lia.
Qed.

Lemma learn_empty (eta sigma : R) (x : list R) (s : SOM.t) :
  wf s ->
  (SOM.gridsize s).1 = 0%nat \/ (SOM.gridsize s).2 = 0%nat ->
  SOM.learn eta sigma x s = (Raise "ValueError", s).
Proof.
  intros Hwf Hempty. unfold SOM.learn, SOM.winner, np_argmin.
  now rewrite (activitymap_empty s Hwf Hempty).
Qed.

(** X4. A well-formed, non-empty map given an input whose length is neither
    the dimension of the map nor 1 (and the dimension is not 1 either):
    [SOM.compute] raises the [ValueError] of numpy at the first neuron, and
    nothing of the map has changed. *)
Theorem compute_rejects_wrong_dimension (x : list R) (s0 : SOM.t) :
  wf s0 ->
  (0 < (SOM.gridsize s0).1)%nat -> (0 < (SOM.gridsize s0).2)%nat ->
  length x <> dimension (SOM.inputsize s0) ->
  length x <> 1%nat -> dimension (SOM.inputsize s0) <> 1%nat ->
  SOM.compute x s0 = (Raise "ValueError", s0).
Proof.
  intros Hwf Hh Hw Hx Hx1 Hd1.
  destruct (wf_lookup_map s0 Hwf 0 0 Hh Hw) as [n Hn].
  destruct (wf_neuron s0 Hwf 0 0 n Hn) as (_ & _ & Hlen).
  unfold SOM.compute.
  destruct (SOM.gridsize s0).1 as [|h]; [lia|].
  destruct (SOM.gridsize s0).2 as [|w]; [lia|].
  apply for_each_raise_head, for_each_raise_head. som_simpl.
  unfold SOM.call_neuron, getitem2. rewrite Hn.
  unfold Neuron.compute, np_sub.
  rewrite np_broadcast_mismatch by congruence. reflexivity.
Qed.

Lemma compute_rejects_wrong_dimension_witness :
  SOM.compute [0; 0; 0] (SOM.mk [2%nat] (1%nat, 1%nat) [[neuron_3_4]] [[0]])
  = (Raise "ValueError", SOM.mk [2%nat] (1%nat, 1%nat) [[neuron_3_4]] [[0]]).
Proof.
  apply compute_rejects_wrong_dimension; simpl; try lia.
  split.
  - split; [reflexivity|repeat constructor].
  - split; [reflexivity|repeat constructor].
  - intros [|[|i]] [|[|j]] n E; simpl in E; try discriminate.
    injection E as <-. simpl. repeat split; reflexivity.
  - intros [|[|i]] [|[|j]]; reflexivity.
Defined.

(** X5. On a well-formed map with no neuron (no row, or no column),
    [SOM.compute] returns and does nothing, [SOM.learn] raises the
    [ValueError] of [numpy.argmin] on an empty array, and
    [SOM.quantification] on a data set with a sample raises the [ValueError]
    of [numpy.min]; each leaves the map as it was. *)
Theorem empty_map_has_no_winner (s : SOM.t) :
  wf s ->
  (SOM.gridsize s).1 = 0%nat \/ (SOM.gridsize s).2 = 0%nat ->
  (forall x, SOM.compute x s = (Ok tt, s))
  /\ (forall eta sigma x, SOM.learn eta sigma x s = (Raise "ValueError", s))
  /\ (forall x X, SOM.quantification (x :: X) s = (Raise "ValueError", s)).
Proof.
  intros Hwf Hempty. pose proof (activitymap_empty s Hwf Hempty) as Hnil.
  split; [|split].
  - intros x. now apply compute_empty.
  - intros eta sigma x. now apply learn_empty.
  - intros x X. unfold SOM.quantification. simpl. som_simpl.
    rewrite (compute_empty x s Hempty). unfold SOM.read, np_min.
    now rewrite Hnil.
Qed.

Lemma empty_map_has_no_winner_witness :
  SOM.learn (1/2) 1 [0] (SOM.init [1%nat] (0%nat, 3%nat) zeros_generator).1
  = (Raise "ValueError", (SOM.init [1%nat] (0%nat, 3%nat) zeros_generator).1).
Proof.
  apply (empty_map_has_no_winner _ (init_wf [1%nat] (0%nat, 3%nat) zeros_generator)).
  left. reflexivity.
Defined.

(** X6. The two ways a training run stops in its first round, whatever the
    number of iterations asked for.  With no sample,
    [numpy.random.randint(0)] raises [ValueError]: nothing is drawn and the
    map is untouched.  With samples but a well-formed map of no neuron, one
    index is drawn, [compute] does nothing and [learn] raises [ValueError];
    the map is untouched. *)
Theorem training_stops_in_first_round (eta sigma : R) (N : nat) (g : RandomState)
    (s : SOM.t) :
  training eta sigma N [] g s = (Raise "ValueError", (g, s))
  /\ forall samples : list (list R),
       samples <> [] -> wf s ->
       (SOM.gridsize s).1 = 0%nat \/ (SOM.gridsize s).2 = 0%nat ->
       training eta sigma N samples g s = (Raise "ValueError", (advance 1 g, s)).
Proof.
  unfold training, range. rewrite Nat.add_1_r. split; [reflexivity|].
  intros samples Hne Hwf Hempty. cbn [seq training_loop].
  unfold training_step, randint.
  destruct (Nat.eqb_spec (length samples) 0) as [E0|Hlen].
  { destruct samples; [congruence|discriminate]. }
  assert (Hidx : (integer g (drawn g) mod length samples < length samples)%nat)
    by (apply Nat.mod_upper_bound; lia).
  destruct (lookup_lt_is_Some_2 _ _ Hidx) as [x ->].
  now rewrite (compute_empty x s Hempty), (learn_empty eta sigma x s Hwf Hempty).
Qed.

Lemma training_stops_in_first_round_witness :
  training (1/2) 1 5 [[0]] zeros_generator
    (SOM.init [1%nat] (0%nat, 3%nat) zeros_generator).1
  = (Raise "ValueError",
     (advance 1 zeros_generator,
      (SOM.init [1%nat] (0%nat, 3%nat) zeros_generator).1)).
Proof.
  apply (training_stops_in_first_round (1/2) 1 5 zeros_generator).
  - discriminate.
  - apply init_wf.
  - left. reflexivity.
Defined.
End MapErrors.

(** ** The learning rule, neuron by neuron *)

Section LearningRule.
Local Open Scope R_scope.




Lemma zip_plus_zero (c : R) (w : list R) :
  forall x : list R,
    length x = length w -> c = 0 ->
    zip_with Rplus w (Rmult c <$> zip_with Rminus x w) = w.
Proof.
  intros x Hlen ->. revert x Hlen.
  induction w as [|u w IH]; intros [|v x] Hlen; simpl in *; try discriminate.
  - reflexivity.
  - f_equal; [ring|]. apply IH. lia.
Qed.

Lemma zip_plus_broadcast (c x0 : R) (w : list R) :
  zip_with Rplus w (Rmult c <$> (Rminus x0 <$> w))
  = (fun u => u + c * (x0 - u)) <$> w.
Proof.
  induction w as [|u w IH]; [reflexivity|].
  rewrite !fmap_cons. cbn [zip_with]. now rewrite IH.
Qed.

(** X7. A learning rate of zero changes nothing.  For [sigma <> 0],
    [Neuron.learn] with [eta = 0], on an input of the length of the weights,
    returns the neuron exactly as it was, wherever the winner is; and on a
    well-formed, non-empty map and an input of its dimension, [SOM.learn]
    with [eta = 0] returns and leaves the map exactly as it was. *)
Theorem zero_learning_rate_changes_nothing (sigma : R) :
  sigma <> 0 ->
  (forall (bx bj : Z) (x : list R) (n : Neuron.t),
     length x = length (Neuron.weights n) ->
     Neuron.learn 0 sigma bx bj x n = Ok n)
  /\ (forall (x : list R) (s0 : SOM.t),
        wf s0 ->
        (0 < (SOM.gridsize s0).1)%nat -> (0 < (SOM.gridsize s0).2)%nat ->
        length x = dimension (SOM.inputsize s0) ->
        SOM.learn 0 sigma x s0 = (Ok tt, s0)).
Proof.
  intros _.
  assert (Hn : forall (bx bj : Z) (x : list R) (n : Neuron.t),
             length x = length (Neuron.weights n) ->
             learned 0 sigma bx bj x n = n).
  { intros bx bj x n Hlen. unfold learned.
    rewrite zip_plus_zero by (exact Hlen || ring). now destruct n. }
  split.
  - intros bx bj x n Hlen. rewrite learn_same_length by exact Hlen.
    f_equal. apply (Hn bx bj x n Hlen).
  - intros x s0 Hwf Hh Hw Hx.
    destruct (winner_spec s0 (wf_activitymap s0 Hwf) Hh Hw)
      as (bi & bj & m & Ew & _).
    destruct (learn_taught 0 sigma x bi bj s0 Hwf Hx Ew) as [El _].
    rewrite El. f_equal. unfold taught.
    replace (grid_fmap (learned 0 sigma (Z.of_nat bi) (Z.of_nat bj) x)
               (SOM.map s0)) with (SOM.map s0); [now destruct s0|].
    apply (grid_ext (SOM.gridsize s0).1 (SOM.gridsize s0).2);
      [apply Hwf|apply grid_shape_fmap, Hwf|].
    intros i j. rewrite lookup2_grid_fmap.
    destruct (lookup2 i j (SOM.map s0)) as [n|] eqn:En; [|reflexivity].
    simpl. f_equal. symmetry. apply Hn.
    destruct (wf_neuron s0 Hwf i j n En) as (_ & _ & Hlen). congruence.
Qed.

Lemma zero_learning_rate_changes_nothing_witness :
  Neuron.learn 0 1 5 7 [0; 0] neuron_3_4 = Ok neuron_3_4
  /\ SOM.learn 0 1 [1] som_1x2 = (Ok tt, som_1x2).
Proof.
  split.
  - apply (zero_learning_rate_changes_nothing 1); [lra|reflexivity].
  - apply (zero_learning_rate_changes_nothing 1);
      [lra | exact som_1x2_wf | simpl; lia | simpl; lia | reflexivity].
Defined.

(** X8. What [Neuron.learn] does, for [sigma <> 0], with an input that has
    not the length of the weights.  An input of one component is broadcast: every weight [w]
    moves to [w + eta * h * (x0 - w)].  But a neuron of a single weight
    given an input of two components or more, which [Neuron.compute]
    accepts, makes [Neuron.learn] fail: the sum has the length of the input
    and the assignment to [self.weights[:]] raises [ValueError]. *)
Theorem learn_broadcasts_one_way (eta sigma : R) (bx bj : Z) (n : Neuron.t) :
  sigma <> 0 ->
  (forall x0 : R,
     exists n',
       Neuron.learn eta sigma bx bj [x0] n = Ok n'
       /\ Neuron.posx n' = Neuron.posx n /\ Neuron.posy n' = Neuron.posy n
       /\ Neuron.y n' = Neuron.y n
       /\ Neuron.weights n' =
            (fun w => w + eta * kernel sigma (d2 n bx bj) * (x0 - w))
              <$> Neuron.weights n)
  /\ (forall (w0 x1 x2 : R) (x : list R),
        Neuron.weights n = [w0] ->
        (exists n', Neuron.compute (x1 :: x2 :: x) n = Ok n')
        /\ Neuron.learn eta sigma bx bj (x1 :: x2 :: x) n = Raise "ValueError").
Proof.
  intros _. split.
  - intros x0. unfold Neuron.learn, np_sub, np_add, np_scale.
    rewrite np_broadcast_left_one. result_simpl.
    rewrite np_broadcast_same by (now rewrite !length_fmap).
    result_simpl.
    rewrite np_assign_same
      by (rewrite length_zip_with, !length_fmap; lia).
    result_simpl. eexists. split; [reflexivity|]. simpl.
    repeat (split; [reflexivity|]). rewrite kernel_eq.
    apply zip_plus_broadcast.
  - intros w0 x1 x2 x Hw. split.
    + unfold Neuron.compute, np_sub. rewrite Hw, np_broadcast_left_one.
      result_simpl. eauto.
    + unfold Neuron.learn, np_sub, np_add, np_scale. rewrite Hw.
      rewrite np_broadcast_right_one. result_simpl.
      rewrite np_broadcast_left_one. result_simpl. reflexivity.
Qed.

Lemma learn_broadcasts_one_way_witness :
  (exists n', Neuron.compute [0; 0] (Neuron.mk [1] 0 0 0) = Ok n')
  /\ Neuron.learn (1/2) 1 0 0 [0; 0] (Neuron.mk [1] 0 0 0) = Raise "ValueError".
Proof.
  destruct (learn_broadcasts_one_way (1/2) 1 0 0 (Neuron.mk [1] 0 0 0))
    as [_ Hfail]; [lra|].
  apply (Hfail 1). reflexivity.
Defined.



(** X10. The winner is the nearest neuron.  On a well-formed, non-empty map
    and an input of its dimension, after [compute] the winner that [learn]
    computes is the position of a neuron whose weights are at the least
    Euclidean distance of the input among all the neurons of the map; of
    the neurons at that same distance it is the first in row-major order. *)
Theorem winner_is_nearest_neuron (x : list R) (s0 : SOM.t) :
  wf s0 ->
  (0 < (SOM.gridsize s0).1)%nat -> (0 < (SOM.gridsize s0).2)%nat ->
  length x = dimension (SOM.inputsize s0) ->
  exists (s1 : SOM.t) (bi bj : nat) (nb : Neuron.t),
    SOM.compute x s0 = (Ok tt, s1)
    /\ SOM.winner s1 = Ok (bi, bj)
    /\ lookup2 bi bj (SOM.map s0) = Some nb
    /\ forall i j n,
         lookup2 i j (SOM.map s0) = Some n ->
         euclidean_norm (zip_with Rminus (Neuron.weights nb) x)
         <= euclidean_norm (zip_with Rminus (Neuron.weights n) x)
         /\ (euclidean_norm (zip_with Rminus (Neuron.weights n) x)
             = euclidean_norm (zip_with Rminus (Neuron.weights nb) x) ->
             (bi < i)%nat \/ (bi = i /\ (bj <= j)%nat)).
Proof.
  intros Hwf Hh Hw Hx.
  destruct (compute_computed x s0 Hwf Hx) as [Ec Hwf1].
  destruct (winner_spec (computed x s0) (wf_activitymap _ Hwf1) Hh Hw)
    as (bi & bj & m & Ew & Hm & Hmin).
  unfold computed in Hm, Hmin. simpl in Hm, Hmin.
  rewrite lookup2_grid_fmap in Hm.
  destruct (lookup2 bi bj (SOM.map s0)) as [nb|] eqn:Hnb; [|discriminate].
  simpl in Hm. injection Hm as <-.
  exists (computed x s0), bi, bj, nb. repeat (split; [assumption || reflexivity|]).
  intros i j n Hn. apply (Hmin i j).
  now rewrite lookup2_grid_fmap, Hn.
Qed.

Lemma winner_is_nearest_neuron_witness :
  exists (s1 : SOM.t) (bi bj : nat) (nb : Neuron.t),
    SOM.compute [1] som_1x2 = (Ok tt, s1)
    /\ SOM.winner s1 = Ok (bi, bj)
    /\ lookup2 bi bj (SOM.map som_1x2) = Some nb.
Proof.
  destruct (winner_is_nearest_neuron [1] som_1x2 som_1x2_wf)
    as (s1 & bi & bj & nb & H1 & H2 & H3 & _);
    [simpl; lia | simpl; lia | reflexivity |].
  exists s1, bi, bj, nb. auto.
Defined.
End LearningRule.

(** ** The quantization error on a data set *)

Section Quantification.
Local Open Scope R_scope.

Lemma fold_min_spec (l : list R) :
  forall v : R,
    fold_left Rmin l v <= v
    /\ (forall u, u ∈ l -> fold_left Rmin l v <= u)
    /\ (fold_left Rmin l v = v \/ fold_left Rmin l v ∈ l).
Proof.
  induction l as [|a l IH]; intros v; simpl.
  - split; [lra|]. split; [|now left]. intros u Hu. inversion Hu.
  - destruct (IH (Rmin v a)) as (Hle & Hall & Hin).
    pose proof (Rmin_l v a). pose proof (Rmin_r v a).
    split; [lra|]. split.
    + intros u Hu. apply elem_of_cons in Hu as [->|Hu]; [lra|auto].
    + destruct Hin as [E|Hin]; [|right; now right].
      rewrite E. unfold Rmin. destruct (Rle_dec v a); [now left|right; left].
Qed.

Lemma elem_of_concat_grid {A : Type} (h w : nat) (g : list (list A)) (a : A) :
  grid_shape h w g ->
  a ∈ concat g <-> exists i j, lookup2 i j g = Some a.
Proof.
  intros Hshape. split.
  - intros Ha. apply list_elem_of_lookup in Ha as [k Hk].
    assert (Hlt : (k < h * w)%nat).
    { rewrite <- (length_concat_grid h w g Hshape). eapply lookup_lt_Some, Hk. }
    assert (0 < w)%nat by nia.
    exists (k / w)%nat, (k mod w)%nat.
    rewrite <- (lookup_concat_grid h w g _ _ Hshape)
      by (apply Nat.mod_upper_bound; lia).
    pose proof (Nat.div_mod_eq k w).
    now replace (k / w * w + k mod w)%nat with k by lia.
  - intros (i & j & Hij).
    assert ((i < h)%nat /\ (j < w)%nat) as [_ Hj]
      by (apply (grid_shape_lookup2 h w g i j Hshape); eauto).
    rewrite <- (lookup_concat_grid h w g _ _ Hshape Hj) in Hij.
    eapply list_elem_of_lookup_2, Hij.
Qed.

(** The least distance is a lower bound of the distances of the neurons,
    and the distance of one of them. *)
Lemma nearest_distance_spec (s : SOM.t) (x : list R) :
  wf s ->
  (0 < (SOM.gridsize s).1)%nat -> (0 < (SOM.gridsize s).2)%nat ->
  (forall i j n, lookup2 i j (SOM.map s) = Some n ->
                 nearest_distance s x <= distance_to x n)
  /\ (exists i j n, lookup2 i j (SOM.map s) = Some n
                    /\ nearest_distance s x = distance_to x n)
  /\ np_min (grid_fmap (distance_to x) (SOM.map s)) = Ok (nearest_distance s x).
Proof.
  intros Hwf Hh Hw.
  pose proof (grid_shape_fmap (distance_to x) _ _ _ (wf_map s Hwf)) as Hshape.
  pose proof (elem_of_concat_grid _ _ _ (nearest_distance s x) Hshape) as Hin.
  pose proof (fun d => elem_of_concat_grid _ _ _ d Hshape) as Hel.
  pose proof (length_concat_grid _ _ _ Hshape) as Hlen.
  unfold nearest_distance, np_min in *.
  destruct (concat (grid_fmap (distance_to x) (SOM.map s))) as [|v l].
  { simpl in Hlen. nia. }
  destruct (fold_min_spec l v) as (Hle & Hall & Hmem).
  split; [|split; [|reflexivity]].
  - intros i j n Hn.
    assert (Hd : distance_to x n ∈ v :: l).
    { apply Hel. exists i, j. now rewrite lookup2_grid_fmap, Hn. }
    apply elem_of_cons in Hd as [-> | Hd]; [exact Hle|auto].
  - assert (Hm : fold_left Rmin l v ∈ v :: l).
    { destruct Hmem as [-> | Hmem]; [left|now right]. }
    apply Hin in Hm as (i & j & Hij). rewrite lookup2_grid_fmap in Hij.
    destruct (lookup2 i j (SOM.map s)) as [n|] eqn:Hn; [|discriminate].
    simpl in Hij. injection Hij as Hij. exists i, j, n. auto.
Qed.

Lemma computed_computed (x x' : list R) (s0 : SOM.t) :
  computed x (computed x' s0) = computed x s0.
Proof.
  unfold computed. simpl. f_equal.
  - apply (grid_fmap_compose (activated x) (activated x')).
  - apply (grid_fmap_compose (distance_to x) (activated x')).
Qed.

(** The loop of [quantification], from a map whose weights are those of
    [s0]. *)
Lemma quantification_loop (s0 : SOM.t) :
  wf s0 ->
  (0 < (SOM.gridsize s0).1)%nat -> (0 < (SOM.gridsize s0).2)%nat ->
  forall (X : list (list R)) (acc : pynum R) (s : SOM.t),
    Forall (fun x => length x = dimension (SOM.inputsize s0)) X ->
    wf s -> SOM.inputsize s = SOM.inputsize s0 ->
    (forall x, computed x s = computed x s0) ->
    exists acc',
      SOM.fold_each X (fun acc x =>
        SOM.compute x;;
        m ← SOM.read (fun self => np_min (SOM.activitymap self));
        mret (py_iadd acc (m * m))) acc s
      = (Ok acc', match last X with Some x => computed x s0 | None => s end)
      /\ to_float acc'
         = to_float acc
           + big 0 Rplus (fun x => nearest_distance s0 x * nearest_distance s0 x) X
      /\ (X <> [] -> acc' = NpFloat (to_float acc'))
      /\ (X = [] -> acc' = acc).
Proof.
  intros Hwf0 Hh Hw X.
  induction X as [|x X IH]; intros acc s Hdim Hwf Hisz Hsame.
  - exists acc. simpl. repeat split; auto; try lra. congruence.
  - apply Forall_cons in Hdim as [Hx Hdim].
    destruct (compute_computed x s Hwf) as [Ec _]; [congruence|].
    rewrite Hsame in Ec.
    destruct (compute_computed x s0 Hwf0 Hx) as [_ Hwf1].
    destruct (nearest_distance_spec s0 x Hwf0 Hh Hw) as (_ & _ & Emin).
    destruct (IH (py_iadd acc (nearest_distance s0 x * nearest_distance s0 x))
                (computed x s0) Hdim Hwf1 eq_refl
                (fun x' => computed_computed x' x s0))
      as (acc' & E & Ht & Hne & Hnil).
    exists acc'. split; [|split; [|split]].
    + cbn [SOM.fold_each]. som_simpl. rewrite Ec. unfold SOM.read.
      cbn [SOM.activitymap computed]. rewrite Emin.
      refine (eq_trans E _).
      destruct X as [|x2 X]; [reflexivity|]. rewrite last_cons_cons.
      destruct (last (x2 :: X)) eqn:El; [reflexivity|].
      apply last_None in El. discriminate.
    + rewrite Ht. simpl. lra.
    + intros _. destruct X as [|x2 X].
      * rewrite Hnil by reflexivity. reflexivity.
      * apply Hne. discriminate.
    + discriminate.
Qed.

Lemma quantification_after_loop (X : list (list R)) (s s' : SOM.t) (acc : pynum R) :
  SOM.fold_each X (fun acc x =>
    SOM.compute x;;
    m ← SOM.read (fun self => np_min (SOM.activitymap self));
    mret (py_iadd acc (m * m))) (PyInt 0) s = (Ok acc, s') ->
  SOM.quantification X s = (py_truediv acc (Z.of_nat (length X)), s').
Proof.
  intros E. unfold SOM.quantification.
  unfold mbind, mret, SOM.M_bind, SOM.M_ret, SOM.read in E |- *.
  now rewrite E.
Qed.

Lemma sum_sq_diff_self (w : list R) : sum_sq (zip_with Rminus w w) = 0.
Proof. induction w as [|u w IH]; simpl; [reflexivity|]. rewrite IH. ring. Qed.

(** X11. On a well-formed, non-empty map and a non-empty data set of its
    dimension, [SOM.quantification] returns the mean, over the samples, of
    the square of the least Euclidean distance from the sample to the
    weights of a neuron; that value is not negative.  No weight changes, but
    the call is not free of effects: the outputs and the activity map are
    left as [compute] on the last sample sets them. *)
Theorem quantification_is_mean_nearest_square (X : list (list R)) (s0 : SOM.t) :
  wf s0 ->
  (0 < (SOM.gridsize s0).1)%nat -> (0 < (SOM.gridsize s0).2)%nat ->
  X <> [] ->
  Forall (fun x => length x = dimension (SOM.inputsize s0)) X ->
  exists (v : R) (xlast : list R),
    last X = Some xlast
    /\ SOM.quantification X s0 = (Ok (NpFloat v), computed xlast s0)
    /\ v = big 0 Rplus (fun x => nearest_distance s0 x * nearest_distance s0 x) X
           / INR (length X)
    /\ 0 <= v
    /\ SOM.weightsmap (computed xlast s0) = SOM.weightsmap s0
    /\ forall x,
         (forall i j n, lookup2 i j (SOM.map s0) = Some n ->
                        nearest_distance s0 x
                        <= euclidean_norm (zip_with Rminus (Neuron.weights n) x))
         /\ exists i j n,
              lookup2 i j (SOM.map s0) = Some n
              /\ nearest_distance s0 x
                 = euclidean_norm (zip_with Rminus (Neuron.weights n) x).
Proof.
  intros Hwf Hh Hw Hne Hdim.
  destruct (quantification_loop s0 Hwf Hh Hw X (PyInt 0) s0 Hdim Hwf eq_refl
              (fun x => eq_refl)) as (acc & E & Ht & Hfl & _).
  destruct (last X) as [xlast|] eqn:Hlast.
  2:{ destruct X; [congruence|]. apply last_None in Hlast. discriminate. }
  assert (Hpos : 0 < INR (length X)).
  { apply lt_0_INR. destruct X; [congruence|simpl; lia]. }
  assert (Hsum : 0 <= big 0 Rplus
            (fun x => nearest_distance s0 x * nearest_distance s0 x) X).
  { apply big_nonneg. intros x. nra. }
  eexists _, xlast. split; [reflexivity|]. split; [|split; [reflexivity|]].
  - rewrite (quantification_after_loop _ _ _ _ E).
    rewrite (Hfl Hne), Ht. simpl. rewrite Rplus_0_l, INR_IZR_INZ. reflexivity.
  - split.
    { apply Rmult_le_pos; [exact Hsum|]. now apply Rlt_le, Rinv_0_lt_compat. }
    split.
    { unfold SOM.weightsmap, computed. simpl.
      apply (grid_fmap_compose Neuron.weights (activated xlast)). }
    intros x. destruct (nearest_distance_spec s0 x Hwf Hh Hw) as (H1 & H2 & _).
    auto.
Qed.

Lemma quantification_is_mean_nearest_square_witness :
  exists (v : R) (xlast : list R),
    last [[1]; [0]] = Some xlast
    /\ SOM.quantification [[1]; [0]] som_1x2 = (Ok (NpFloat v), computed xlast som_1x2)
    /\ 0 <= v.
Proof.
  destruct (quantification_is_mean_nearest_square [[1]; [0]] som_1x2 som_1x2_wf)
    as (v & xlast & H1 & H2 & _ & H3 & _);
    [simpl; lia | simpl; lia | discriminate | repeat constructor |].
  exists v, xlast. auto.
Defined.

(** X12. On a well-formed, non-empty map, a non-empty data set in which
    every sample is the weight vector of some neuron of the map has a
    quantization error of exactly 0. *)
Theorem quantification_of_own_weights_is_zero (X : list (list R)) (s0 : SOM.t) :
  wf s0 ->
  (0 < (SOM.gridsize s0).1)%nat -> (0 < (SOM.gridsize s0).2)%nat ->
  X <> [] ->
  Forall (fun x => exists i j n,
            lookup2 i j (SOM.map s0) = Some n /\ Neuron.weights n = x) X ->
  exists s, SOM.quantification X s0 = (Ok (NpFloat 0), s).
Proof.
  intros Hwf Hh Hw Hne Hown.
  assert (Hdim : Forall (fun x => length x = dimension (SOM.inputsize s0)) X).
  { eapply Forall_impl; [exact Hown|]. intros x (i & j & n & Hn & <-).
    apply (wf_neuron s0 Hwf i j n Hn). }
  destruct (quantification_loop s0 Hwf Hh Hw X (PyInt 0) s0 Hdim Hwf eq_refl
              (fun x => eq_refl)) as (acc & E & Ht & Hfl & _).
  assert (Hzero : big 0 Rplus
            (fun x => nearest_distance s0 x * nearest_distance s0 x) X = 0).
  { clear E Ht Hfl Hne Hdim. induction Hown as [|x X Hx _ IH]; simpl; [reflexivity|].
    rewrite IH. destruct Hx as (i & j & n & Hn & Hwx).
    destruct (nearest_distance_spec s0 x Hwf Hh Hw)
      as (Hle & (i' & j' & n' & _ & Hge) & _).
    specialize (Hle i j n Hn).
    assert (distance_to x n = 0).
    { unfold distance_to, euclidean_norm. rewrite Hwx, sum_sq_diff_self.
      apply sqrt_0. }
    assert (0 <= nearest_distance s0 x)
      by (rewrite Hge; apply euclidean_norm_nonneg).
    replace (nearest_distance s0 x) with 0 by lra. ring. }
  eexists. rewrite (quantification_after_loop _ _ _ _ E).
  rewrite (Hfl Hne), Ht, Hzero. simpl.
  do 3 f_equal. unfold Rdiv. ring.
Qed.

Lemma quantification_of_own_weights_is_zero_witness :
  exists s, SOM.quantification [[1]; [0]; [1]] som_1x2 = (Ok (NpFloat 0), s).
Proof.
  apply (quantification_of_own_weights_is_zero [[1]; [0]; [1]] som_1x2 som_1x2_wf);
    [simpl; lia | simpl; lia | discriminate |].
  repeat constructor.
  - exists 0%nat, 1%nat, (Neuron.mk [1] 0 1 0). split; reflexivity.
  - exists 0%nat, 0%nat, (Neuron.mk [0] 0 0 0). split; reflexivity.
  - exists 0%nat, 1%nat, (Neuron.mk [1] 0 1 0). split; reflexivity.
Defined.
End Quantification.

(** ** What [__init__] draws *)

Section InitDraws.
Local Open Scope nat_scope.

Lemma init_line_draws (isz : list nat) (posx : nat) (posys : list nat) :
  forall g : RandomState,
    drawn (SOM.init_line isz posx posys g).2
    = drawn g + length posys * dimension isz
    /\ uniform (SOM.init_line isz posx posys g).2 = uniform g
    /\ integer (SOM.init_line isz posx posys g).2 = integer g
    /\ forall k n,
         (SOM.init_line isz posx posys g).1.1 !! k = Some n ->
         Neuron.weights n
         = (fun t => uniform g (drawn g + k * dimension isz + t))
             <$> range (dimension isz).
Proof.
  induction posys as [|posy posys IH]; intros g; cbn [SOM.init_line].
  - simpl. repeat split; try lia. intros k n Hk. now rewrite lookup_nil in Hk.
  - unfold random. fold (dimension isz).
    specialize (IH (advance (dimension isz) g)).
    destruct (SOM.init_line isz posx posys (advance (dimension isz) g))
      as [[mline amline] g2].
    simpl in *. destruct IH as (Hd & Hu & Hi & Hk).
    split; [lia|]. split; [exact Hu|]. split; [exact Hi|].
    intros [|k] n Hn; simpl in Hn.
    + injection Hn as <-. simpl. apply list_fmap_ext.
      intros i t _. f_equal; lia.
    + rewrite (Hk k n Hn). apply list_fmap_ext.
      intros i t _. f_equal; lia.
Qed.

Lemma init_lines_draws (isz : list nat) (width : nat) (posxs : list nat) :
  forall g : RandomState,
    drawn (SOM.init_lines isz posxs width g).2
    = drawn g + length posxs * width * dimension isz
    /\ uniform (SOM.init_lines isz posxs width g).2 = uniform g
    /\ integer (SOM.init_lines isz posxs width g).2 = integer g
    /\ forall i j n,
         lookup2 i j (SOM.init_lines isz posxs width g).1.1 = Some n ->
         Neuron.weights n
         = (fun t => uniform g (drawn g + (i * width + j) * dimension isz + t))
             <$> range (dimension isz).
Proof.
  induction posxs as [|posx posxs IH]; intros g; cbn [SOM.init_lines].
  - simpl. repeat split; try lia.
    intros i j n Hn. unfold lookup2 in Hn. now rewrite lookup_nil in Hn.
  - pose proof (init_line_draws isz posx (range width) g) as (Hd1 & Hu1 & Hi1 & Hk1).
    destruct (SOM.init_line isz posx (range width) g) as [[mline amline] g1].
    specialize (IH g1).
    destruct (SOM.init_lines isz posxs width g1) as [[m am] g2].
    simpl in *. destruct IH as (Hd & Hu & Hi & Hcell).
    unfold range in Hd1. rewrite length_seq in Hd1.
    split; [lia|]. split; [congruence|]. split; [congruence|].
    intros [|i] j n Hn.
    + unfold lookup2 in Hn. simpl in Hn. rewrite (Hk1 j n Hn).
      apply list_fmap_ext. intros k t _. f_equal; lia.
    + rewrite (Hcell i j n Hn), Hu1, Hd1.
      apply list_fmap_ext. intros k t _. f_equal; lia.
Qed.

(** X13. [SOM.__init__] builds a well-formed map of the sizes asked for,
    whatever they are, and draws one variate per weight, neuron after neuron
    in row-major order: the neuron at [(i, j)] gets the [D] variates that
    follow the first [(i * width + j) * D], where [D] is the product of the
    input shape, and after the call the generator has delivered
    [height * width * D] variates more. *)
Theorem init_draws_the_weights_in_order (inputsize : list nat) (gridsize : nat * nat)
    (g : RandomState) :
  wf (SOM.init inputsize gridsize g).1
  /\ SOM.inputsize (SOM.init inputsize gridsize g).1 = inputsize
  /\ SOM.gridsize (SOM.init inputsize gridsize g).1 = gridsize
  /\ drawn (SOM.init inputsize gridsize g).2
     = drawn g + gridsize.1 * gridsize.2 * dimension inputsize
  /\ forall i j n,
       lookup2 i j (SOM.map (SOM.init inputsize gridsize g).1) = Some n ->
       Neuron.posx n = Z.of_nat i /\ Neuron.posy n = Z.of_nat j
       /\ Neuron.weights n
          = (fun t => uniform g
                        (drawn g + (i * gridsize.2 + j) * dimension inputsize + t))
              <$> range (dimension inputsize).
Proof.
  split; [apply init_wf|].
  pose proof (init_wf inputsize gridsize g) as Hwf.
  pose proof (init_lines_draws inputsize gridsize.2 (range gridsize.1) g)
    as (Hd & _ & _ & Hcell).
  revert Hwf. unfold SOM.init.
  destruct (SOM.init_lines inputsize (range gridsize.1) gridsize.2 g)
    as [[m am] g1].
  simpl in *. intros Hwf. unfold range in Hd. rewrite length_seq in Hd.
  repeat (split; [reflexivity || assumption|]).
  intros i j n Hn.
  destruct (wf_neuron _ Hwf i j n Hn) as (Hpx & Hpy & _).
  repeat (split; [assumption|]). apply (Hcell i j n Hn).
Qed.
End InitDraws.

(** ** Training keeps the map in shape *)

Section TrainingShape.
Local Open Scope R_scope.

(** X14. Training never adds, removes, moves or resizes a neuron.  On a
    well-formed, non-empty map, a non-empty set of samples of its dimension
    and [sigma <> 0], a training run of any number of iterations returns;
    the map it leaves is well formed and has the sizes it had, and at every
    position there still is a neuron, at the same coordinates and with as
    many weights as before. *)
Theorem training_keeps_the_map_in_shape (eta sigma : R) (N : nat)
    (samples : list (list R)) (g : RandomState) (s0 : SOM.t) :
  wf s0 ->
  (0 < (SOM.gridsize s0).1)%nat -> (0 < (SOM.gridsize s0).2)%nat ->
  samples <> [] ->
  Forall (fun x => length x = dimension (SOM.inputsize s0)) samples ->
  sigma <> 0 ->
  exists (g' : RandomState) (s' : SOM.t),
    training eta sigma N samples g s0 = (Ok tt, (g', s'))
    /\ wf s'
    /\ SOM.inputsize s' = SOM.inputsize s0
    /\ SOM.gridsize s' = SOM.gridsize s0
    /\ forall i j n,
         lookup2 i j (SOM.map s0) = Some n ->
         exists n',
           lookup2 i j (SOM.map s') = Some n'
           /\ Neuron.posx n' = Neuron.posx n
           /\ Neuron.posy n' = Neuron.posy n
           /\ length (Neuron.weights n') = length (Neuron.weights n).
Proof.
  intros Hwf Hh Hw Hne Hdim _.
  destruct (training_loop_passes eta sigma samples (SOM.inputsize s0)
              (SOM.gridsize s0) (range (N + 1)) Hh Hw Hne Hdim g s0
              (conj Hwf (conj eq_refl eq_refl)))
    as (g' & s' & E & _ & _ & Hwf' & Hi & Hg).
  exists g', s'. repeat (split; [assumption|]).
  intros i j n Hn.
  assert (is_Some (lookup2 i j (SOM.map s'))) as [n' Hn'].
  { apply (grid_shape_lookup2 _ _ _ _ _ (wf_map s' Hwf')). rewrite Hg.
    apply (grid_shape_lookup2 _ _ _ _ _ (wf_map s0 Hwf)). eauto. }
  exists n'. split; [exact Hn'|].
  destruct (wf_neuron s0 Hwf i j n Hn) as (Hpx & Hpy & Hlen).
  destruct (wf_neuron s' Hwf' i j n' Hn') as (Hpx' & Hpy' & Hlen').
  repeat split; congruence.
Qed.

Lemma training_keeps_the_map_in_shape_witness :
  exists (g' : RandomState) (s' : SOM.t),
    training (1/2) 1 3 [[1]; [0]] zeros_generator som_1x2 = (Ok tt, (g', s'))
    /\ wf s'
    /\ SOM.inputsize s' = [1%nat]
    /\ SOM.gridsize s' = (1%nat, 2%nat).
Proof.
  destruct (training_keeps_the_map_in_shape (1/2) 1 3 [[1]; [0]]
              zeros_generator som_1x2 som_1x2_wf)
    as (g' & s' & E & Hwf' & Hi & Hg & _);
    [simpl; lia | simpl; lia | discriminate | repeat constructor | lra |].
  exists g', s'. auto.
Defined.
End TrainingShape.

(** ** The values of the heat map *)

Section IndexedFolds.
Local Open Scope nat_scope.
Context {St : Type}.

Lemma fold_result_seq_inv (I : nat -> St -> Prop) (body : St -> nat -> result St)
    (len : nat) :
  forall (start : nat) (s : St),
    (forall k s, start <= k < start + len -> I k s ->
                 exists s', body s k = Ok s' /\ I (S k) s') ->
    I start s ->
    exists s', fold_result (seq start len) body s = Ok s' /\ I (start + len) s'.
Proof.
  induction len as [|len IH]; intros start s Hbody HI.
  - exists s. simpl. split; [reflexivity|]. now rewrite Nat.add_0_r.
  - destruct (Hbody start s) as (s1 & E1 & H1); [lia|exact HI|].
    destruct (IH (S start) s1) as (s2 & E2 & H2);
      [intros; apply Hbody; [lia|assumption] | exact H1 |].
    exists s2. split.
    + simpl. rewrite E1. result_simpl. exact E2.
    + now replace (start + S len) with (S start + len) by lia.
Qed.

Lemma double_fold_inv (J : (nat -> nat -> Prop) -> St -> Prop)
    (B : St -> nat -> nat -> result St) (h w : nat) :
  (forall (P P' : nat -> nat -> Prop) s,
     (forall p q, p < h -> q < w -> (P p q <-> P' p q)) -> J P s -> J P' s) ->
  (forall i j s, i < h -> j < w -> J (before i j) s ->
                 exists s', B s i j = Ok s' /\ J (before i (S j)) s') ->
  forall s, J (fun _ _ => False) s ->
  exists s',
    fold_result (range h) (fun s i => fold_result (range w) (fun s j => B s i j) s) s
    = Ok s'
    /\ J (fun _ _ => True) s'.
Proof.
  intros Hext Hstep s H0.
  destruct (fold_result_seq_inv (fun i s => J (before i 0) s)
              (fun s i => fold_result (range w) (fun s j => B s i j) s) h 0 s)
    as (s' & E & H').
  - intros i s1 Hi H1.
    destruct (fold_result_seq_inv (fun j s => J (before i j) s)
                (fun s j => B s i j) w 0 s1) as (s2 & E2 & H2).
    + intros j s2 Hj H2. apply Hstep; [lia|lia|exact H2].
    + exact H1.
    + exists s2. split; [exact E2|].
      eapply Hext; [|exact H2]. unfold before. intros p q Hp Hq. lia.
  - eapply Hext; [|exact H0]. unfold before. intros p q Hp Hq. lia.
  - exists s'. split; [exact E|].
    eapply Hext; [|exact H']. unfold before. intros p q Hp Hq. lia.
Qed.
End IndexedFolds.

Section HeatMap.
Local Open Scope R_scope.

Variables (w : ndarray R) (h wd d : nat).
Hypothesis Hw : weights_shape h wd d (items w).

Lemma heatmap_values :
  exists heatmap,
    heatmap_of_weights (h, wd) w = Ok heatmap
    /\ grid_shape h wd heatmap
    /\ forall i j, (i < h)%nat -> (j < wd)%nat ->
                   lookup2 i j heatmap = Some (heat (items w) h wd i j).
Proof.
  unfold heatmap_of_weights. cbn [fst snd].
  match goal with
  | |- context [fold_result (range h) _ ?init] =>
      destruct (double_fold_inv
                  (fun (P : nat -> nat -> Prop) hm =>
                     grid_shape h wd hm
                     /\ forall p q, P p q -> (p < h)%nat -> (q < wd)%nat ->
                          lookup2 p q hm = Some (heat (items w) h wd p q))
                  (fun heatmap i j =>
                     let acc := (PyInt 0, 0%Z) in
                     acc ← (if (0 <? i)%nat then add_pair_at w acc i j (i - 1) j
                            else mret acc);
                     acc ← (if (Z.of_nat i <? Z.of_nat h - 1)%Z
                            then add_pair_at w acc i j (i + 1) j else mret acc);
                     acc ← (if (0 <? j)%nat then add_pair_at w acc i j i (j - 1)
                            else mret acc);
                     acc ← (if (Z.of_nat j <? Z.of_nat wd - 1)%Z
                            then add_pair_at w acc i j i (j + 1) else mret acc);
                     v ← (if (0 <? acc.2)%Z then py_truediv acc.1 acc.2
                          else mret (PyInt 0));
                     setitem2 heatmap i j (to_float v))
                  h wd) with (s := init) as (hm & E & Hshape & Hval)
  end.
  - intros P P' hm HP [Hshape Hval]. split; [exact Hshape|].
    intros p q Hpq Hp Hq. apply Hval; [now apply HP|exact Hp|exact Hq].
  - intros i j hm1 Hi Hj [Hshape Hval]. cbv zeta.
    rewrite !Z_ltb_pred.
    destruct (guarded_pair_at w h wd d Hw (0 <? i)%nat (PyInt 0, 0%Z) 0 0
                i j (i - 1) j) as (acc1 & -> & H1); [apply acc_is_start|lia|lia| |].
    { intros Hc. apply Nat.ltb_lt in Hc. lia. }
    result_simpl.
    destruct (guarded_pair_at w h wd d Hw (i + 1 <? h)%nat acc1 _ _
                i j (i + 1) j H1) as (acc2 & -> & H2); [lia|lia| |].
    { intros Hc. apply Nat.ltb_lt in Hc. lia. }
    result_simpl.
    destruct (guarded_pair_at w h wd d Hw (0 <? j)%nat acc2 _ _
                i j i (j - 1) H2) as (acc3 & -> & H3); [lia|lia| |].
    { intros Hc. apply Nat.ltb_lt in Hc. lia. }
    result_simpl.
    destruct (guarded_pair_at w h wd d Hw (j + 1 <? wd)%nat acc3 _ _
                i j i (j + 1) H3) as (acc4 & -> & H4); [lia|lia| |].
    { intros Hc. apply Nat.ltb_lt in Hc. lia. }
    result_simpl.
    apply (acc_is_eq _ _
             (around 0 Rplus
                (fun p q => sq_dist (cell (items w) p) (cell (items w) q)) h wd i j)
             _ (neighbour_count h wd i j)) in H4.
    2: { unfold around. destruct (0 <? i)%nat, (i + 1 <? h)%nat, (0 <? j)%nat,
           (j + 1 <? wd)%nat; simpl; lra. }
    2: { unfold neighbour_count, around.
         destruct (0 <? i)%nat, (i + 1 <? h)%nat, (0 <? j)%nat,
           (j + 1 <? wd)%nat; reflexivity. }
    assert (exists v, (if (0 <? acc4.2)%Z then py_truediv acc4.1 acc4.2
                       else mret (PyInt 0)) = Ok v
                      /\ to_float v = heat (items w) h wd i j) as (v & -> & Hv).
    { pose proof H4 as (_ & Hc & _). unfold heat.
      destruct (Z.ltb_spec 0 acc4.2) as [Hpos|Hzero].
      - eexists. split; [apply (py_truediv_pos _ _ _ H4); lia|].
        destruct (Nat.eqb_spec (neighbour_count h wd i j) 0); [lia|reflexivity].
      - exists (PyInt 0). split; [reflexivity|].
        destruct (Nat.eqb_spec (neighbour_count h wd i j) 0); [reflexivity|lia]. }
    result_simpl. unfold setitem2.
    destruct (proj2 (grid_shape_lookup2 h wd hm1 i j Hshape)) as [old Hold];
      [lia|].
    rewrite Hold. eexists. split; [reflexivity|]. split.
    + now apply grid_shape_insert2.
    + intros p q Hpq Hp Hq. rewrite lookup2_insert2, Hold.
      destruct (decide (p = i /\ q = j)) as [[-> ->]|Hne].
      * simpl. now rewrite Hv.
      * apply Hval; [|exact Hp|exact Hq]. unfold before in *. lia.
  - split.
    + split; [apply length_replicate|].
      apply Forall_replicate, length_replicate.
    + intros p q [].
  - exists hm. split; [exact E|]. split; [exact Hshape|].
    intros i j Hi Hj. now apply Hval.
Qed.
End HeatMap.

Section HeatMapOfAMap.
Local Open Scope R_scope.

(** X15. The heat map of a well-formed map is a grid of the size of the map
    and holds, at every position, the mean of the squared distances between
    the weights of the neuron there and those of its neighbours above,
    below, on the left and on the right, as many as there are; 0 where
    there is none. *)
Theorem heatmap_is_mean_over_own_neighbours (network : SOM.t) :
  wf network ->
  exists heatmap,
    carte_de_chaleur_distorsion network = Ok heatmap
    /\ grid_shape (SOM.gridsize network).1 (SOM.gridsize network).2 heatmap
    /\ forall i j,
         (i < (SOM.gridsize network).1)%nat ->
         (j < (SOM.gridsize network).2)%nat ->
         lookup2 i j heatmap
         = Some (heat (SOM.weightsmap network)
                   (SOM.gridsize network).1 (SOM.gridsize network).2 i j).
Proof.
  intros Hwf.
  destruct (heatmap_values (np_array (SOM.weightsmap network)) _ _ _
              (wf_weights_shape network Hwf)) as (heatmap & E & Hshape & Hval).
  rewrite <- surjective_pairing in E.
  exists heatmap. split; [exact E|]. split; [exact Hshape|exact Hval].
Qed.

Lemma heatmap_is_mean_over_own_neighbours_witness :
  exists heatmap,
    carte_de_chaleur_distorsion som_1x2 = Ok heatmap
    /\ grid_shape 1 2 heatmap
    /\ forall i j, (i < 1)%nat -> (j < 2)%nat ->
         lookup2 i j heatmap = Some (heat (SOM.weightsmap som_1x2) 1 2 i j).
Proof.
  apply (heatmap_is_mean_over_own_neighbours som_1x2 som_1x2_wf).
Defined.
End HeatMapOfAMap.

(** ** Maps on which the metrics vanish, and maps without neurons *)

Section Flatness.
Local Open Scope R_scope.

Lemma sq_dist_zero (a : list R) :
  forall b : list R, length a = length b -> sq_dist a b = 0 -> a = b.
Proof.
  unfold sq_dist. induction a as [|u a IH]; intros [|v b] Hlen E;
    simpl in *; try discriminate; [reflexivity|].
  pose proof (sum_sq_nonneg (zip_with Rminus a b)) as Hpos.
  pose proof (Rle_0_sqr (u - v)) as Hsqr. unfold Rsqr in Hsqr.
  assert (Hs : sum_sq (zip_with Rminus a b) = 0) by lra.
  assert (Huv : u = v).
  { assert (Hsq : (u - v) * (u - v) = 0) by lra.
    apply Rmult_integral in Hsq. lra. }
  rewrite Huv, (IH b); [reflexivity|lia|exact Hs].
Qed.

Lemma big_zero_iff {A : Type} (f : A -> R) (l : list A) :
  (forall a, a ∈ l -> 0 <= f a) ->
  big 0 Rplus f l = 0 <-> forall a, a ∈ l -> f a = 0.
Proof.
  induction l as [|a l IH]; intros Hpos; simpl.
  - split; [|reflexivity]. intros _ a Ha. inversion Ha.
  - assert (Hl : forall b, b ∈ l -> 0 <= f b) by (intros b Hb; apply Hpos; now right).
    pose proof (Hpos a (list_elem_of_here a l)) as Ha.
    assert (Hsum : 0 <= big 0 Rplus f l).
    { clear IH Hpos Ha. induction l as [|b l IHl]; simpl; [lra|].
      pose proof (Hl b (list_elem_of_here b l)).
      assert (0 <= big 0 Rplus f l) by (apply IHl; intros c Hc; apply Hl; now right).
      lra. }
    split.
    + intros E b Hb. apply elem_of_cons in Hb as [->|Hb]; [lra|].
      apply (proj1 (IH Hl)); [lra|exact Hb].
    + intros Hall. rewrite (Hall a) by left.
      rewrite (proj2 (IH Hl)); [lra|]. intros b Hb. apply Hall. now right.
Qed.

Lemma div_zero_iff (x c : R) : 0 < c -> x / c = 0 <-> x = 0.
Proof.
  intros Hc. split; intros E.
  - replace x with (x / c * c) by (field; lra). rewrite E. ring.
  - rewrite E. unfold Rdiv. ring.
Qed.

Lemma edge_distortion_zero (wm : list (list (list R))) (h wd : nat) :
  edge_distortion wm h wd = 0
  <-> (forall i j, (i < h)%nat -> (j + 1 < wd)%nat ->
         sq_dist (cell wm (i, j)) (cell wm (i, j + 1)%nat) = 0)
      /\ (forall i j, (i + 1 < h)%nat -> (j < wd)%nat ->
            sq_dist (cell wm (i, j)) (cell wm (i + 1, j)%nat) = 0).
Proof.
  unfold edge_distortion, over_edges.
  set (A := big 0 Rplus _ (range h)). set (B := big 0 Rplus _ (range (h - 1))).
  assert (HA : 0 <= A).
  { apply big_nonneg. intros i. apply big_nonneg. intros j. apply sq_dist_nonneg. }
  assert (HB : 0 <= B).
  { apply big_nonneg. intros i. apply big_nonneg. intros j. apply sq_dist_nonneg. }
  assert (EA : A = 0 <-> forall i j, (i < h)%nat -> (j + 1 < wd)%nat ->
                 sq_dist (cell wm (i, j)) (cell wm (i, j + 1)%nat) = 0).
  { unfold A. rewrite big_zero_iff
      by (intros i _; apply big_nonneg; intros j; apply sq_dist_nonneg).
    split.
    - intros Hall i j Hi Hj.
      assert (Hrow := Hall i). rewrite big_zero_iff in Hrow
        by (intros k _; apply sq_dist_nonneg).
      apply Hrow; apply elem_of_seq; lia.
    - intros Hall i Hi. apply elem_of_seq in Hi. apply big_zero_iff.
      + intros k _. apply sq_dist_nonneg.
      + intros j Hj. apply elem_of_seq in Hj. apply Hall; lia. }
  assert (EB : B = 0 <-> forall i j, (i + 1 < h)%nat -> (j < wd)%nat ->
                 sq_dist (cell wm (i, j)) (cell wm (i + 1, j)%nat) = 0).
  { unfold B. rewrite big_zero_iff
      by (intros i _; apply big_nonneg; intros j; apply sq_dist_nonneg).
    split.
    - intros Hall i j Hi Hj.
      assert (Hrow := Hall i). rewrite big_zero_iff in Hrow
        by (intros k _; apply sq_dist_nonneg).
      apply Hrow; apply elem_of_seq; lia.
    - intros Hall i Hi. apply elem_of_seq in Hi. apply big_zero_iff.
      + intros k _. apply sq_dist_nonneg.
      + intros j Hj. apply elem_of_seq in Hj. apply Hall; lia. }
  rewrite <- EA, <- EB. split; [intros E; split; lra|intros [-> ->]; lra].
Qed.

Lemma cell_weightsmap (network : SOM.t) (i j : nat) (n : Neuron.t) :
  lookup2 i j (SOM.map network) = Some n ->
  cell (SOM.weightsmap network) (i, j) = Neuron.weights n.
Proof.
  intros Hn. unfold cell, SOM.weightsmap. cbn [fst snd].
  now rewrite lookup2_fmap, Hn.
Qed.

Lemma flat_edge_distortion (network : SOM.t) :
  wf network ->
  edge_distortion (SOM.weightsmap network)
    (SOM.gridsize network).1 (SOM.gridsize network).2 = 0
  <-> flat network.
Proof.
  intros Hwf. rewrite edge_distortion_zero.
  assert (Hin : forall i j, is_Some (lookup2 i j (SOM.map network))
                            <-> (i < (SOM.gridsize network).1
                                 /\ j < (SOM.gridsize network).2)%nat)
    by (intros i j; apply grid_shape_lookup2, (wf_map network Hwf)).
  assert (Hin' : forall i j, (i < (SOM.gridsize network).1)%nat ->
                   (j < (SOM.gridsize network).2)%nat ->
                   exists n, lookup2 i j (SOM.map network) = Some n).
  { intros i j Hi Hj. apply (Hin i j). split; assumption. }
  split.
  - intros [Hright Hbelow] i j n n' Hn Hn'.
    assert (Hij := proj1 (Hin i j) (ex_intro _ n Hn)).
    destruct (wf_neuron network Hwf i j n Hn) as (_ & _ & Hlen).
    destruct Hn' as [Hn'|Hn'].
    + assert (Hij' := proj1 (Hin (i + 1)%nat j) (ex_intro _ n' Hn')).
      destruct (wf_neuron network Hwf _ _ n' Hn') as (_ & _ & Hlen').
      apply sq_dist_zero; [congruence|].
      rewrite <- (cell_weightsmap network i j n Hn),
        <- (cell_weightsmap network (i + 1) j n' Hn').
      apply Hbelow; lia.
    + assert (Hij' := proj1 (Hin i (j + 1)%nat) (ex_intro _ n' Hn')).
      destruct (wf_neuron network Hwf _ _ n' Hn') as (_ & _ & Hlen').
      apply sq_dist_zero; [congruence|].
      rewrite <- (cell_weightsmap network i j n Hn),
        <- (cell_weightsmap network i (j + 1) n' Hn').
      apply Hright; lia.
  - intros Hflat. split; intros i j Hi Hj.
    + destruct (Hin' i j) as [n Hn]; [lia|lia|].
      destruct (Hin' i (j + 1)%nat) as [n' Hn']; [lia|lia|].
      rewrite (cell_weightsmap network i j n Hn),
        (cell_weightsmap network i (j + 1) n' Hn'),
        (Hflat i j n n' Hn (or_intror Hn')).
      apply sum_sq_diff_self.
    + destruct (Hin' i j) as [n Hn]; [lia|lia|].
      destruct (Hin' (i + 1)%nat j) as [n' Hn']; [lia|lia|].
      rewrite (cell_weightsmap network i j n Hn),
        (cell_weightsmap network (i + 1) j n' Hn'),
        (Hflat i j n n' Hn (or_introl Hn')).
      apply sum_sq_diff_self.
Qed.

(** X16. On a well-formed map with at least one pair of neighbours, the
    local distortion is 0 exactly when every neuron has the weights of its
    neighbour below and of its right neighbour, and so is the roughness: the
    two measures vanish on the flat maps and on no other. *)
Theorem distortion_vanishes_on_flat_maps_only (network : SOM.t) :
  wf network ->
  (0 < edge_count (SOM.gridsize network).1 (SOM.gridsize network).2)%nat ->
  (distorsion_locale_moyenne network = Ok (NpFloat 0) <-> flat network)
  /\ (rugosite_locale_moyenne network = Ok (NpFloat 0) <-> flat network).
Proof.
  intros Hwf Hedges.
  destruct (edge_count_pos _ _ Hedges) as [Hh Hwd].
  rewrite (distorsion_value network Hwf), (rugosite_value network Hwf Hh Hwd).
  destruct (Nat.eqb_spec (edge_count (SOM.gridsize network).1
                            (SOM.gridsize network).2) 0) as [E0|_]; [lia|].
  rewrite <- (flat_edge_distortion network Hwf).
  set (T := edge_distortion _ _ _). set (C := edge_count _ _) in *.
  assert (HC : 0 < INR C) by (apply lt_0_INR; lia).
  assert (HCC : 0 < INR (C + C)) by (apply lt_0_INR; lia).
  split; split; intros E.
  - injection E as E. now apply div_zero_iff in E.
  - do 2 f_equal. now apply div_zero_iff.
  - injection E as E. apply div_zero_iff in E; [lra|exact HCC].
  - do 2 f_equal. apply div_zero_iff; [exact HCC|lra].
Qed.

Lemma distortion_vanishes_on_flat_maps_only_witness :
  (distorsion_locale_moyenne som_1x2 = Ok (NpFloat 0) <-> flat som_1x2)
  /\ (rugosite_locale_moyenne som_1x2 = Ok (NpFloat 0) <-> flat som_1x2).
Proof.
  apply (distortion_vanishes_on_flat_maps_only som_1x2 som_1x2_wf).
  vm_compute. lia.
Defined.
End Flatness.

Section EmptyMaps.
Local Open Scope R_scope.

Lemma fold_result_skip {A B St : Type} (l : list A) (s : St)
    (body : St -> A -> B -> result St) :
  fold_result l (fun s a => fold_result [] (fun s b => body s a b) s) s = Ok s.
Proof. induction l as [|a l IH]; simpl; [reflexivity|]. result_simpl. exact IH. Qed.

(** X17. On a well-formed map without neurons (no row, or no column) the
    three measures of the script part ways: the local distortion divides the
    integer 0 by the integer 0 and raises [ZeroDivisionError], the roughness
    cannot unpack three dimensions from the shape of the array of weights
    and raises [ValueError], and the heat map is the array of zeros of that
    shape, which has no entry. *)
Theorem metrics_of_a_map_without_neurons (network : SOM.t) :
  wf network ->
  (SOM.gridsize network).1 = 0%nat \/ (SOM.gridsize network).2 = 0%nat ->
  distorsion_locale_moyenne network = Raise "ZeroDivisionError"
  /\ rugosite_locale_moyenne network = Raise "ValueError"
  /\ carte_de_chaleur_distorsion network
     = Ok (np_zeros (SOM.gridsize network).1 (SOM.gridsize network).2)
  /\ concat (np_zeros (T := R) (SOM.gridsize network).1 (SOM.gridsize network).2)
     = [].
Proof.
  intros Hwf Hempty.
  destruct (wf_weights_shape network Hwf) as [[Hlen Hrows] _].
  split; [|split; [|split]].
  - rewrite (distorsion_value network Hwf).
    destruct (Nat.eqb_spec (edge_count (SOM.gridsize network).1
                              (SOM.gridsize network).2) 0) as [_|Hne];
      [reflexivity|].
    apply Nat.neq_0_lt_0, edge_count_pos in Hne. lia.
  - unfold rugosite_locale_moyenne, compute_local_roughness, np_array.
    cbn [shape].
    destruct (SOM.weightsmap network) as [|line wm]; [reflexivity|].
    apply Forall_cons in Hrows as [Hline _].
    destruct line as [|a line]; [reflexivity|].
    simpl in Hlen, Hline. lia.
  - unfold carte_de_chaleur_distorsion, heatmap_of_weights.
    destruct Hempty as [-> | ->].
    + reflexivity.
    + unfold range at 2. cbn [seq]. apply fold_result_skip.
  - unfold np_zeros. destruct Hempty as [-> | ->]; [reflexivity|].
    clear. generalize (SOM.gridsize network).1.
    intros k. induction k as [|k IH]; [reflexivity|exact IH].
Qed.

Lemma metrics_of_a_map_without_neurons_witness :
  distorsion_locale_moyenne (SOM.init [2%nat] (3%nat, 0%nat) zeros_generator).1
  = Raise "ZeroDivisionError"
  /\ rugosite_locale_moyenne (SOM.init [2%nat] (3%nat, 0%nat) zeros_generator).1
     = Raise "ValueError"
  /\ carte_de_chaleur_distorsion (SOM.init [2%nat] (3%nat, 0%nat) zeros_generator).1
     = Ok (np_zeros 3 0)
  /\ concat (np_zeros (T := R) 3 0) = [].
Proof.
  apply (metrics_of_a_map_without_neurons
           (SOM.init [2%nat] (3%nat, 0%nat) zeros_generator).1
           (init_wf [2%nat] (3%nat, 0%nat) zeros_generator)).
  right. reflexivity.
Defined.
End EmptyMaps.
